(** * Tool-calling orchestration: tool registry and conversation driver

    A shallow embedding of [bedrock_tool_manager.py] (the tool registry
    [BedrockConverseToolManager]) and of [mcp/bedrock_converse.py] (the
    conversation driver [BedrockConverse]), followed by the properties of
    the two components.

    Python values come in two representations.  Messages, tool requests
    and tool results are built once and never mutated afterwards, so they
    are immutable trees ([pyval]).  Input schemas are dictionaries that
    [get_tools] mutates in place through aliases, so they live in a store
    of objects addressed by references ([val], [obj], [store]). *)

From stdpp Require Import base list strings pretty.
From Stdlib Require Import Ascii ZArith QArith.

Set Default Proof Using "Type".
Local Close Scope Q_scope.
Local Open Scope string_scope.
Local Open Scope list_scope.
Local Open Scope nat_scope.

(** ** Values *)

(** The hashable scalars: [None], booleans, integers and strings. *)
Inductive atom :=
| ANone
| ABool (b : bool)
| AInt (z : Z)
| AStr (s : string).

(** Immutable JSON-shaped trees; the keys of a dictionary are strings and
    a dictionary keeps its insertion order. *)
#[warnings="-register-all"]
Inductive pyval :=
| VAtom (a : atom)
| VList (l : list pyval)
| VDict (d : list (string * pyval)).

Abbreviation VStr s := (VAtom (AStr s)).
Abbreviation VNone := (VAtom ANone).

(** [str(a)] of a scalar, as an f-string formats it. *)
Definition str_atom (a : atom) : string :=
  match a with
  | ANone => "None"
  | ABool true => "True"
  | ABool false => "False"
  | AInt z => pretty z
  | AStr s => s
  end.

(** [repr(a)]; for a string the quoting is the one Python uses when the
    string has no quote and no escape, which covers the keys of this
    program. *)
Definition repr_atom (a : atom) : string :=
  match a with
  | AStr s => "'" +:+ s +:+ "'"
  | _ => str_atom a
  end.

Definition type_name (v : pyval) : string :=
  match v with
  | VAtom ANone => "NoneType"
  | VAtom (ABool _) => "bool"
  | VAtom (AInt _) => "int"
  | VAtom (AStr _) => "str"
  | VList _ => "list"
  | VDict _ => "dict"
  end.

(** ** Exceptions and the state-and-exception monad *)

(** Instances of [Exception].  [BaseException]-only signals
    ([KeyboardInterrupt], task cancellation) are outside the model. *)
Inductive exn :=
| KeyError (key : atom)
| IndexError (msg : string)
| TypeError (msg : string)
| AttributeError (msg : string)
| SystemError (msg : string)
| ThrottlingException (msg : string)
| Exception (msg : string).

(** [str(e)]. A [KeyError] prints the [repr] of its key. *)
Definition str_exn (e : exn) : string :=
  match e with
  | KeyError k => repr_atom k
  | IndexError m | TypeError m | AttributeError m | SystemError m
  | ThrottlingException m | Exception m => m
  end.

Inductive result (A : Type) :=
| Return (a : A)
| Raise (e : exn).
Arguments Return {A} a.
Arguments Raise {A} e.

(** A computation over a mutable state [S]: the state it leaves is kept
    also when it raises. *)
Definition M (S A : Type) : Type := S → S * result A.

Definition ret {S A} (a : A) : M S A := λ s, (s, Return a).
Definition raise {S A} (e : exn) : M S A := λ s, (s, Raise e).
Definition bind {S A B} (m : M S A) (k : A → M S B) : M S B :=
  λ s, match m s with
       | (s', Return a) => k a s'
       | (s', Raise e) => (s', Raise e)
       end.
Definition lift_result {S A} (r : result A) : M S A := λ s, (s, r).
Definition gets {S A} (f : S → A) : M S A := λ s, (s, Return (f s)).
Definition modify {S} (f : S → S) : M S unit := λ s, (f s, Return tt).

(** [try: m except Exception as e: handler e] *)
Definition try_except {S A} (m : M S A) (handler : exn → M S A) : M S A :=
  λ s, match m s with
       | (s', Return a) => (s', Return a)
       | (s', Raise e) => handler e s'
       end.

Declare Scope py_scope.
Delimit Scope py_scope with py.
Notation "x <- m ;; k" := (bind m (λ x, k))
  (at level 100, m at next level, right associativity,
   format "'[v' x  <-  m  ;;  '/' k ']'") : py_scope.
Notation "m ;;; k" := (bind m (λ _, k))
  (at level 100, right associativity,
   format "'[v' m  ;;;  '/' k ']'") : py_scope.
Local Open Scope py_scope.

(** [for x in xs: body x], collecting what each iteration yields. *)
Fixpoint for_each {S A B} (body : A → M S B) (xs : list A) : M S (list B) :=
  match xs with
  | [] => ret []
  | x :: xs' => y <- body x ;; ys <- for_each body xs' ;; ret (y :: ys)
  end.

(** ** Dictionaries in insertion order *)

Section Dict.
Context {V : Type}.

Fixpoint dict_get (k : string) (d : list (string * V)) : option V :=
  match d with
  | [] => None
  | (k', v) :: d' => if String.eqb k k' then Some v else dict_get k d'
  end.

Definition dict_mem (k : string) (d : list (string * V)) : bool :=
  match dict_get k d with Some _ => true | None => false end.

(** [d[k] = v]: an existing key keeps its position. *)
Fixpoint dict_set (k : string) (v : V) (d : list (string * V))
  : list (string * V) :=
  match d with
  | [] => [(k, v)]
  | (k', v') :: d' =>
      if String.eqb k k' then (k', v) :: d' else (k', v') :: dict_set k v d'
  end.

(** [d.setdefault(k, v)]: writes only where the key is absent. *)
Definition dict_setdefault (k : string) (v : V) (d : list (string * V))
  : list (string * V) :=
  match dict_get k d with
  | Some _ => d
  | None => d ++ [(k, v)]
  end.
End Dict.

(** [needle in hay] for two strings: substring test. *)
Definition str_contains (needle hay : string) : bool :=
  match String.index 0 needle hay with Some _ => true | None => false end.

(** ** Operations on immutable trees *)

(** [v == s] for a string literal [s]. *)
Definition py_eq_str (v : pyval) (s : string) : bool :=
  match v with
  | VStr s' => String.eqb s' s
  | _ => false
  end.

(** [v[key]] for a string key. *)
Definition py_getitem (v : pyval) (key : string) : result pyval :=
  match v with
  | VDict d =>
      match dict_get key d with
      | Some x => Return x
      | None => Raise (KeyError (AStr key))
      end
  | VList _ => Raise (TypeError "list indices must be integers or slices, not str")
  | VStr _ => Raise (TypeError "string indices must be integers, not 'str'")
  | _ => Raise (TypeError ("'" +:+ type_name v +:+ "' object is not subscriptable"))
  end.

(** [v[0]]. *)
Definition py_getitem0 (v : pyval) : result pyval :=
  match v with
  | VList l =>
      match l with
      | x :: _ => Return x
      | [] => Raise (IndexError "list index out of range")
      end
  | VStr s =>
      match s with
      | String c _ => Return (VStr (String c EmptyString))
      | EmptyString => Raise (IndexError "string index out of range")
      end
  | VDict _ => Raise (KeyError (AInt 0))
  | _ => Raise (TypeError ("'" +:+ type_name v +:+ "' object is not subscriptable"))
  end.

(** [key in v]. *)
Definition py_contains (key : string) (v : pyval) : result bool :=
  match v with
  | VDict d => Return (dict_mem key d)
  | VList l => Return (existsb (λ x, py_eq_str x key) l)
  | VStr s => Return (str_contains key s)
  | _ => Raise (TypeError ("argument of type '" +:+ type_name v +:+ "' is not iterable"))
  end.

Fixpoint chars (s : string) : list pyval :=
  match s with
  | EmptyString => []
  | String c s' => VStr (String c EmptyString) :: chars s'
  end.

(** The items [for x in v] runs over. *)
Definition py_iter (v : pyval) : result (list pyval) :=
  match v with
  | VList l => Return l
  | VDict d => Return (map (λ kv, VStr (fst kv)) d)
  | VStr s => Return (chars s)
  | _ => Raise (TypeError ("'" +:+ type_name v +:+ "' object is not iterable"))
  end.

(** ** The object store *)

Abbreviation addr := nat (only parsing).

Inductive val :=
| Atom (a : atom)
| Ref (r : addr).

Inductive obj :=
| ODict (d : list (string * val))
| OList (l : list val).

(** Address [a] is position [a]; allocation appends. *)
Abbreviation store := (list obj) (only parsing).

Definition alloc (o : obj) : M store addr :=
  λ h, (h ++ [o], Return (length h)).

(** A reference always designates an object in Python; the error case is
    there for stores that are not closed. *)
Definition deref (a : addr) : M store obj :=
  λ h, match h !! a with
       | Some o => (h, Return o)
       | None => (h, Raise (SystemError "dangling reference"))
       end.

Definition val_is_str (key : string) (v : val) : bool :=
  match v with
  | Atom (AStr s) => String.eqb s key
  | _ => false
  end.

Definition atom_type_name (a : atom) : string := type_name (VAtom a).

(** [key in v]. *)
Definition contains (key : string) (v : val) : M store bool :=
  match v with
  | Atom (AStr s) => ret (str_contains key s)
  | Atom a =>
      raise (TypeError ("argument of type '" +:+ atom_type_name a +:+ "' is not iterable"))
  | Ref a =>
      o <- deref a ;;
      match o with
      | ODict d => ret (dict_mem key d)
      | OList l => ret (existsb (val_is_str key) l)
      end
  end.

(** [v[key]] for a string key. *)
Definition getitem (v : val) (key : string) : M store val :=
  match v with
  | Atom (AStr _) => raise (TypeError "string indices must be integers, not 'str'")
  | Atom a =>
      raise (TypeError ("'" +:+ atom_type_name a +:+ "' object is not subscriptable"))
  | Ref a =>
      o <- deref a ;;
      match o with
      | ODict d =>
          match dict_get key d with
          | Some x => ret x
          | None => raise (KeyError (AStr key))
          end
      | OList _ => raise (TypeError "list indices must be integers or slices, not str")
      end
  end.

(** [v.setdefault]: the attribute lookup, which only a dictionary
    answers; it yields the dictionary the bound method writes to. *)
Definition getattr_setdefault (v : val) : M store addr :=
  match v with
  | Atom a =>
      raise (AttributeError ("'" +:+ atom_type_name a +:+ "' object has no attribute 'setdefault'"))
  | Ref a =>
      o <- deref a ;;
      match o with
      | ODict _ => ret a
      | OList _ => raise (AttributeError "'list' object has no attribute 'setdefault'")
      end
  end.

(** The call [d.setdefault(key, default)] on the dictionary at [a]. *)
Definition call_setdefault (a : addr) (key : string) (default : val) : M store unit :=
  o <- deref a ;;
  match o with
  | ODict d => modify (λ h, <[a := ODict (dict_setdefault key default d)]> h)
  | OList _ => raise (AttributeError "'list' object has no attribute 'setdefault'")
  end.

(** ** The tool registry ([BedrockConverseToolManager]) *)

(** [name.replace('-', '_')] *)
Fixpoint replace_hyphens (name : string) : string :=
  match name with
  | EmptyString => EmptyString
  | String c rest =>
      String (if Ascii.eqb c "-" then "_"%char else c) (replace_hyphens rest)
  end.

Section Registry.
(** [W] is the state of everything outside the program (the tool
    servers and the model endpoint); [R] is the type of what a tool
    returns and [str_result] its [str()]. *)
Context {W R : Type} (str_result : R → string).

(** A tool function: [await func(original_name, input)]. *)
Definition executor : Type := string → pyval → M W R.

(** An entry of [self._tools]. *)
Record tool := {
  function : executor;
  description : string;
  input_schema : val;
  original_name : string
}.

Record registry := {
  _tools : list (string * tool);
  _name_mapping : list (string * string)
}.

(** [__init__] *)
Definition empty_registry : registry :=
  {| _tools := []; _name_mapping := [] |}.

Definition register_tool (self : registry) (name : string) (func : executor)
    (description : string) (input_schema : val) : registry :=
  let sanitized_name := replace_hyphens name in
  {| _name_mapping := dict_set sanitized_name name (_name_mapping self);
     _tools :=
       dict_set sanitized_name
         {| function := func;
            description := description;
            input_schema := input_schema;
            original_name := name |}
         (_tools self) |}.

(** The [toolSpec] dictionary built for one tool. *)
Record tool_spec := {
  spec_name : string;
  spec_description : string;
  spec_inputSchema : val
}.

(** The literals [{}] and [[]]: a new object at each evaluation. *)
Definition new_dict : M store val := a <- alloc (ODict []) ;; ret (Ref a).
Definition new_list : M store val := a <- alloc (OList []) ;; ret (Ref a).

(** [input_schema['json'].setdefault(key, default)]: the subscript, the
    method lookup, the argument, the call. *)
Definition setdefault_json (input_schema : val) (key : string)
    (default : M store val) : M store unit :=
  j <- getitem input_schema "json" ;;
  m <- getattr_setdefault j ;;
  v <- default ;;
  call_setdefault m key v.

(** One iteration of the loop of [get_tools]. *)
Definition get_tools_entry (entry : string * tool) : M store tool_spec :=
  let '(sanitized_name, tool) := entry in
  let input_schema := input_schema tool in
  wrapped <- contains "json" input_schema ;;
  input_schema <-
    (if negb wrapped
     then w <- alloc (ODict [("json", input_schema)]) ;; ret (Ref w)
     else ret input_schema) ;;
  setdefault_json input_schema "type" (ret (Atom (AStr "object"))) ;;;
  setdefault_json input_schema "properties" new_dict ;;;
  setdefault_json input_schema "required" new_list ;;;
  ret {| spec_name := sanitized_name;
         spec_description := description tool;
         spec_inputSchema := input_schema |}.

(** [get_tools]: the list under the key ['tools'] of the value returned. *)
Definition get_tools (self : registry) : M store (list tool_spec) :=
  for_each get_tools_entry (_tools self).

Definition _error_response (tool_use_id : pyval) (error_msg : string) : pyval :=
  VDict [("toolUseId", tool_use_id);
         ("content", VList [VDict [("text", VStr ("Error executing tool: " +:+ error_msg))]]);
         ("status", VStr "error")].

(** [name in self._tools] for a hashable [name]; the keys of [_tools]
    are strings. *)
Definition in_tools (self : registry) (name : atom) : bool :=
  match name with
  | AStr s => dict_mem s (_tools self)
  | _ => false
  end.

(** [self._tools[name]] for a hashable [name]. *)
Definition tools_getitem (self : registry) (name : atom) : result tool :=
  match name with
  | AStr s =>
      match dict_get s (_tools self) with
      | Some t => Return t
      | None => Raise (KeyError name)
      end
  | _ => Raise (KeyError name)
  end.

(** The membership test hashes the name: a list or a dictionary raises
    there, before anything is formatted or looked up. *)
Definition execute_tool (self : registry) (payload : pyval) : M W pyval :=
  tool_use_id <- lift_result (py_getitem payload "toolUseId") ;;
  sanitized_name <- lift_result (py_getitem payload "name") ;;
  match sanitized_name with
  | VAtom name =>
      if negb (in_tools self name)
      then ret (_error_response tool_use_id ("Unknown tool: " +:+ str_atom name))
      else
        try_except
          (t <- lift_result (tools_getitem self name) ;;
           let tool_func := function t in
           let original_name := original_name t in
           input <- lift_result (py_getitem payload "input") ;;
           result <- tool_func original_name input ;;
           ret (VDict [("toolUseId", tool_use_id);
                       ("content", VList [VDict [("text", VStr (str_result result))]]);
                       ("status", VStr "success")]))
          (λ e, ret (_error_response tool_use_id (str_exn e)))
  | _ =>
      raise (TypeError ("unhashable type: '" +:+ type_name sanitized_name +:+ "'"))
  end.
End Registry.

Arguments tool : clear implicits.
Arguments registry : clear implicits.
Arguments executor : clear implicits.

(** ** The conversation driver ([BedrockConverse]) *)

Record inference_config := {
  maxTokens : Z;
  temperature : Q
}.

(** The keyword arguments of [client.converse]. *)
Record request := {
  modelId : string;
  req_messages : list pyval;
  system : list pyval;
  inferenceConfig : inference_config;
  toolConfig : list tool_spec
}.

(** What the program does to the outside, in order. *)
Inductive event :=
| EvAsyncSleep (seconds : Q)
| EvSleep (seconds : Z)
| EvConverse (payload : request)
| EvExecuteTool (payload : pyval).

Definition system_prompt : string :=
  "You are a helpful assistant. If there is a return value that includes a URL (such as an image), the response must include both the message and the URL together. ".

Section Driver.
Context {W R : Type} (str_result : R → string).

(** [self.client.converse], called with the payload as keyword
    arguments: the model endpoint, which reads
    the payload (and through it the store) and answers with a response
    or raises. *)
Context (converse : request → store → M W pyval).

(** [model_id], [messages] and [tools] are the attributes of the
    driver object ([tools] is [None] after [__init__]; [main] sets it to
    a registry before the first call, and the model starts there);
    [heap] is the object store, [world] the state of the outside and
    [trace] the events so far. *)
Record state := {
  model_id : string;
  messages : list pyval;
  tools : registry W R;
  heap : store;
  world : W;
  trace : list event
}.

Definition set_messages (ms : list pyval) (st : state) : state :=
  {| model_id := model_id st; messages := ms; tools := tools st;
     heap := heap st; world := world st; trace := trace st |}.
Definition set_heap (h : store) (st : state) : state :=
  {| model_id := model_id st; messages := messages st; tools := tools st;
     heap := h; world := world st; trace := trace st |}.
Definition set_world (w : W) (st : state) : state :=
  {| model_id := model_id st; messages := messages st; tools := tools st;
     heap := heap st; world := w; trace := trace st |}.
Definition set_trace (t : list event) (st : state) : state :=
  {| model_id := model_id st; messages := messages st; tools := tools st;
     heap := heap st; world := world st; trace := t |}.

Definition with_heap {A} (m : M store A) : M state A :=
  λ st, let '(h, r) := m (heap st) in (set_heap h st, r).
Definition with_world {A} (m : M W A) : M state A :=
  λ st, let '(w, r) := m (world st) in (set_world w st, r).
Definition log (e : event) : M state unit :=
  modify (λ st, set_trace (trace st ++ [e]) st).

(** [self.messages.append(m)] *)
Definition messages_append (m : pyval) : M state unit :=
  modify (λ st, set_messages (messages st ++ [m]) st).

Definition max_retries : nat := 5.

(** The retry loop of [_get_converse_response], over the attempts that
    remain; falling off the loop returns [None]. *)
Fixpoint converse_attempts (attempts : list nat) (retry_delay : Z)
    (payload : request) : M state pyval :=
  match attempts with
  | [] => ret VNone
  | attempt :: rest =>
      try_except
        (log (EvConverse payload) ;;;
         h <- gets heap ;;
         with_world (converse payload h))
        (λ e,
           match e with
           | ThrottlingException _ =>
               if (attempt <? max_retries - 1)%nat
               then log (EvSleep retry_delay) ;;;
                    converse_attempts rest (retry_delay * 2) payload
               else raise e
           | _ => raise e
           end)
  end.

Definition _get_converse_response : M state pyval :=
  model <- gets model_id ;;
  history <- gets messages ;;
  reg <- gets tools ;;
  specs <- with_heap (get_tools reg) ;;
  let payload :=
    {| modelId := model;
       req_messages := history;
       system := [VDict [("text", VStr system_prompt)]];
       inferenceConfig := {| maxTokens := 8192; temperature := 7 # 10 |};
       toolConfig := specs |} in
  let retry_delay := 1%Z in
  converse_attempts (seq 0 max_retries) retry_delay payload.

(** [response['output']['message']] *)
Definition output_message (response : pyval) : result pyval :=
  match py_getitem response "output" with
  | Return output => py_getitem output "message"
  | Raise e => Raise e
  end.

(** [response['output']['message']['content'][0]['text']] *)
Definition first_block_text (response : pyval) : M state pyval :=
  message <- lift_result (output_message response) ;;
  content <- lift_result (py_getitem message "content") ;;
  block <- lift_result (py_getitem0 content) ;;
  lift_result (py_getitem block "text").

(** The body of the loop over the content of a tool-use response; it
    yields what the iteration appends to [tool_response]. *)
Definition handle_content_item (content_item : pyval) : M state (list pyval) :=
  is_tool_use <- lift_result (py_contains "toolUse" content_item) ;;
  if is_tool_use : bool
  then
    tool_use <- lift_result (py_getitem content_item "toolUse") ;;
    tool_use_id <- lift_result (py_getitem tool_use "toolUseId") ;;
    tool_use <- lift_result (py_getitem content_item "toolUse") ;;
    name <- lift_result (py_getitem tool_use "name") ;;
    tool_use <- lift_result (py_getitem content_item "toolUse") ;;
    input <- lift_result (py_getitem tool_use "input") ;;
    let tool_request :=
      VDict [("toolUseId", tool_use_id); ("name", name); ("input", input)] in
    reg <- gets tools ;;
    log (EvExecuteTool tool_request) ;;;
    tool_result <- with_world (execute_tool str_result reg tool_request) ;;
    ret [VDict [("toolResult", tool_result)]]
  else ret [].

(** The loop of the tool-use branch: the final [tool_response]. *)
Definition collect_tool_response (response : pyval) : M state (list pyval) :=
  message <- lift_result (output_message response) ;;
  content <- lift_result (py_getitem message "content") ;;
  items <- lift_result (py_iter content) ;;
  appended <- for_each handle_content_item items ;;
  ret (concat appended).

(** A computation that may also run out of fuel. *)
Definition run (A : Type) : Type := state → option (state * result A).

(** [_handle_response], with the recursive call to [invoke] as a
    parameter. *)
Definition _handle_response_with (invoke : pyval → run pyval)
    (response : pyval) : run pyval :=
  λ st,
    match (message <- lift_result (output_message response) ;;
           messages_append message ;;;
           lift_result (py_getitem response "stopReason")) st with
    | (st1, Raise e) => Some (st1, Raise e)
    | (st1, Return stop_reason) =>
        if py_eq_str stop_reason "end_turn" || py_eq_str stop_reason "stop_sequence"
        then
          Some (try_except (first_block_text response)
                  (λ e, match e with
                        | KeyError _ | IndexError _ => ret (VStr "")
                        | _ => raise e
                        end) st1)
        else if py_eq_str stop_reason "tool_use"
        then
          match collect_tool_response response st1 with
          | (st2, Raise e) => Some (st2, Raise e)
          | (st2, Return tool_response) => invoke (VList tool_response) st2
          end
        else Some (st1, Return (VStr ""))
    end.

(** [invoke]; [fuel] bounds the number of nested calls that follow. *)
Fixpoint invoke (fuel : nat) (content : pyval) : run pyval :=
  λ st,
    match (messages_append (VDict [("role", VStr "user"); ("content", content)]) ;;;
           log (EvAsyncSleep (1 # 2)) ;;;
           _get_converse_response) st with
    | (st1, Raise e) => Some (st1, Raise e)
    | (st1, Return response) =>
        _handle_response_with
          (match fuel with
           | O => λ _ _, None
           | S fuel' => invoke fuel'
           end)
          response st1
    end.

Definition _handle_response (fuel : nat) (response : pyval) : run pyval :=
  _handle_response_with
    (match fuel with
     | O => λ _ _, None
     | S fuel' => invoke fuel'
     end)
    response.

Definition invoke_with_prompt (fuel : nat) (prompt : string) : run pyval :=
  let content := VList [VDict [("text", VStr prompt)]] in
  invoke fuel content.
End Driver.

Arguments state : clear implicits.

(** ** The MCP client and the registration loop of [main] ([main.py]) *)

(** A tool as the server lists it: [tool.name], [tool.description],
    [tool.inputSchema]. *)
Record mcp_tool := {
  mcp_name : string;
  mcp_description : string;
  mcp_inputSchema : val
}.

Section Client.
Context {W R : Type}.

(** The two operations of the session that the client uses. *)
Record client_session := {
  session_list_tools : M W (list mcp_tool);
  session_call_tool : string → pyval → M W R
}.

(** [self.session] is [None] until [connect_stdio] has run. *)
Record mcp_client := {
  mcp_session : option client_session
}.

(** [RuntimeError("Not connected to server")], an [Exception] whose
    [str()] is its message. *)
Definition not_connected : exn := Exception "Not connected to server".

Definition get_available_tools (self : mcp_client) : M W (list mcp_tool) :=
  match mcp_session self with
  | None => raise not_connected
  | Some session => session_list_tools session
  end.

Definition call_tool (self : mcp_client) : executor W R :=
  λ tool_name params,
    match mcp_session self with
    | None => raise not_connected
    | Some session => session_call_tool session tool_name params
    end.

(** The loop of [main] that registers the listed tools, each with the
    schema [{'json': tool.inputSchema}] and the client's [call_tool]. *)
Fixpoint register_discovered (self : mcp_client) (discovered : list mcp_tool)
    (reg : registry W R) : M store (registry W R) :=
  match discovered with
  | [] => ret reg
  | tool :: rest =>
      w <- alloc (ODict [("json", mcp_inputSchema tool)]) ;;
      register_discovered self rest
        (register_tool reg (mcp_name tool) (call_tool self)
           (mcp_description tool) (Ref w))
  end.
End Client.

Arguments client_session : clear implicits.
Arguments mcp_client : clear implicits.

(** ** Vocabulary of the statements *)

(** An identifier character: an ASCII letter, a digit or the underscore. *)
Definition is_identifier_char (c : ascii) : bool :=
  let n := nat_of_ascii c in
  ((65 <=? n) && (n <=? 90) || (97 <=? n) && (n <=? 122)
   || (48 <=? n) && (n <=? 57) || (n =? 95))%nat.

Fixpoint string_forall (p : ascii → bool) (s : string) : bool :=
  match s with
  | EmptyString => true
  | String c rest => p c && string_forall p rest
  end.

(** A name whose characters are all identifier characters. *)
Definition identifier_safe (s : string) : bool :=
  string_forall is_identifier_char s.

Definition is_hyphen (c : ascii) : bool := Ascii.eqb c "-".
Definition is_underscore (c : ascii) : bool := Ascii.eqb c "_".

(** The envelope of a successful tool execution. *)
Definition success_response (tool_use_id : pyval) (text : string) : pyval :=
  VDict [("toolUseId", tool_use_id);
         ("content", VList [VDict [("text", VStr text)]]);
         ("status", VStr "success")].

(** A sequence of registrations, each the arguments of one call of
    [register_tool]. *)
Definition register_all {W R} (reg : registry W R)
    (calls : list (string * executor W R * string * val)) : registry W R :=
  foldl (λ r '(name, func, descr, schema), register_tool r name func descr schema)
        reg calls.

(** *** Stores *)

(** A value is closed in a store when the reference it holds, if any,
    designates an object of the store. *)
Definition val_closed (h : store) (v : val) : Prop :=
  match v with
  | Ref r => r < length h
  | Atom _ => True
  end.

Definition obj_closed (h : store) (o : obj) : Prop :=
  match o with
  | ODict d => Forall (λ kv, val_closed h kv.2) d
  | OList l => Forall (val_closed h) l
  end.

(** No dangling reference, as in every Python heap. *)
Definition closed (h : store) : Prop := Forall (obj_closed h) h.

Definition registry_closed {W R} (h : store) (reg : registry W R) : Prop :=
  Forall (λ e, val_closed h (input_schema e.2)) (_tools reg).

Definition default_keys : list string := ["type"; "properties"; "required"].

(** [v] is the default of key [k]: the string ["object"] for [type], an
    empty dictionary allocated at or after [n0] for [properties], an
    empty list allocated at or after [n0] for [required]. *)
Definition is_default (n0 : nat) (h : store) (k : string) (v : val) : Prop :=
  (k = "type" ∧ v = Atom (AStr "object"))
  ∨ (k = "properties" ∧ ∃ p, v = Ref p ∧ n0 ≤ p ∧ h !! p = Some (ODict []))
  ∨ (k = "required" ∧ ∃ r, v = Ref r ∧ n0 ≤ r ∧ h !! r = Some (OList [])).

(** [d'] is [d] with defaults filled in: every entry of [d] is kept, and
    an entry that [d] lacks is either still absent or a default. *)
Definition dict_filled (n0 : nat) (h' : store) (d d' : list (string * val)) : Prop :=
  ∀ k, match dict_get k d with
       | Some v => dict_get k d' = Some v
       | None =>
           dict_get k d' = None ∨ ∃ v, dict_get k d' = Some v ∧ is_default n0 h' k v
       end.

(** The dictionary has the three keys. *)
Definition has_defaults (d : list (string * val)) : Prop :=
  Forall (λ k, is_Some (dict_get k d)) default_keys.

(** [h'] is a later state of [h] in a run of [get_tools] that started
    with [n0] objects: nothing is deallocated, the objects allocated
    since the start and the lists are as they were, and a dictionary has
    at most gained defaults. *)
Definition evolves (n0 : nat) (h h' : store) : Prop :=
  length h ≤ length h'
  ∧ (∀ a o, n0 ≤ a → h !! a = Some o → h' !! a = Some o)
  ∧ (∀ a l, h !! a = Some (OList l) → h' !! a = Some (OList l))
  ∧ (∀ a d, h !! a = Some (ODict d) →
       ∃ d', h' !! a = Some (ODict d') ∧ dict_filled n0 h' d d').

(** What [get_tools], run from [h] to [h'], built for one entry: the
    stored schema is passed on as it is when it has the key [json] and is
    wrapped in a new dictionary when it has not; the dictionary [j]
    under [json] has the three keys, and those that it had in [h] are
    as they were. *)
Definition spec_for {W R} (h h' : store) (entry : string * tool W R)
    (spec : tool_spec) : Prop :=
  spec_name spec = entry.1
  ∧ spec_description spec = description entry.2
  ∧ ∃ wrapped j dj dj',
      contains "json" (input_schema entry.2) h = (h, Return wrapped)
      ∧ (if wrapped : bool
         then spec_inputSchema spec = input_schema entry.2
         else ∃ w, spec_inputSchema spec = Ref w ∧ length h ≤ w
                   ∧ h' !! w = Some (ODict [("json", input_schema entry.2)]))
      ∧ getitem (spec_inputSchema spec) "json" h' = (h', Return (Ref j))
      ∧ h !! j = Some (ODict dj)
      ∧ h' !! j = Some (ODict dj')
      ∧ has_defaults dj'
      ∧ dict_filled (length h) h' dj dj'.

(** The same while the run is under way: [h0] is the store at the start
    and [h'] any later store. *)
Definition spec_built {W R} (h0 h' : store) (entry : string * tool W R)
    (spec : tool_spec) : Prop :=
  spec_name spec = entry.1
  ∧ spec_description spec = description entry.2
  ∧ ∃ wrapped j dj',
      contains "json" (input_schema entry.2) h0 = (h0, Return wrapped)
      ∧ (if wrapped : bool
         then spec_inputSchema spec = input_schema entry.2
         else ∃ w, spec_inputSchema spec = Ref w ∧ length h0 ≤ w
                   ∧ h' !! w = Some (ODict [("json", input_schema entry.2)]))
      ∧ getitem (spec_inputSchema spec) "json" h' = (h', Return (Ref j))
      ∧ j < length h0
      ∧ h' !! j = Some (ODict dj')
      ∧ has_defaults dj'.


(** A stored schema on which [get_tools] does not raise: a dictionary
    whose entry [json], if it has one, is a dictionary. *)
Definition schema_well_formed (h : store) (v : val) : Prop :=
  ∃ a d, v = Ref a ∧ h !! a = Some (ODict d)
         ∧ match dict_get "json" d with
           | Some vj => ∃ j dj, vj = Ref j ∧ h !! j = Some (ODict dj)
           | None => True
           end.

(** *** The conversation *)

(** The request that the tool-use branch builds from a content block,
    when the block is a tool-use block. *)
Definition tool_request_of (content_item : pyval) : option pyval :=
  match content_item with
  | VDict d =>
      match dict_get "toolUse" d with
      | Some tool_use =>
          match py_getitem tool_use "toolUseId", py_getitem tool_use "name",
                py_getitem tool_use "input" with
          | Return id, Return name, Return input =>
              Some (VDict [("toolUseId", id); ("name", name); ("input", input)])
          | _, _, _ => None
          end
      | None => None
      end
  | _ => None
  end.

(** The requests of a content list, in the order of its blocks. *)
Fixpoint tool_requests (blocks : list pyval) : list pyval :=
  match blocks with
  | [] => []
  | block :: rest =>
      match tool_request_of block with
      | Some request => request :: tool_requests rest
      | None => tool_requests rest
      end
  end.

(** A content block as the endpoint documents it: a dictionary, and
    under the key [toolUse], if it has it, a [toolUseId], a hashable
    [name] and an [input]. *)
Definition content_block_ok (content_item : pyval) : Prop :=
  ∃ d, content_item = VDict d
       ∧ match dict_get "toolUse" d with
         | Some tool_use =>
             ∃ id a input,
               py_getitem tool_use "toolUseId" = Return id
               ∧ py_getitem tool_use "name" = Return (VAtom a)
               ∧ py_getitem tool_use "input" = Return input
         | None => True
         end.

Definition tool_result_block (tool_result : pyval) : pyval :=
  VDict [("toolResult", tool_result)].

Definition user_message (content : pyval) : pyval :=
  VDict [("role", VStr "user"); ("content", content)].

(** What the first content block gives as the answer of a terminal
    response: its text when it is a dictionary with the key [text]. *)
Definition first_block_answer (blocks : list pyval) : pyval :=
  match blocks with
  | VDict d :: _ =>
      match dict_get "text" d with
      | Some text => text
      | None => VStr ""
      end
  | _ => VStr ""
  end.

(** The events of [k] throttled attempts followed by one more attempt,
    the first wait being [delay]. *)
Fixpoint backoff_events (payload : request) (delay : Z) (k : nat) : list event :=
  match k with
  | O => [EvConverse payload]
  | S k' => EvConverse payload :: EvSleep delay :: backoff_events payload (delay * 2) k'
  end.

(** The time spent in [time.sleep]. *)
Fixpoint backoff_total (t : list event) : Z :=
  match t with
  | [] => 0
  | EvSleep d :: t' => d + backoff_total t'
  | _ :: t' => backoff_total t'
  end.

Fixpoint converse_calls (t : list event) : nat :=
  match t with
  | [] => 0
  | EvConverse _ :: t' => S (converse_calls t')
  | _ :: t' => converse_calls t'
  end.

Section Conversation.
Context {W R : Type} (str_result : R → string).
Context (converse : request → store → M W pyval).

(** The payload that [_get_converse_response] builds in state [st] once
    [get_tools] has returned [specs]. *)
Definition payload_of (st : state W R) (specs : list tool_spec) : request :=
  {| modelId := model_id st;
     req_messages := messages st;
     system := [VDict [("text", VStr system_prompt)]];
     inferenceConfig := {| maxTokens := 8192; temperature := 7 # 10 |};
     toolConfig := specs |}.

(** [k] calls in a row that the endpoint answers with a throttling
    error take the outside from [w] to [w']. *)
Inductive throttled (payload : request) (h : store) : nat → W → W → Prop :=
| throttled_O w : throttled payload h 0 w w
| throttled_S k w w1 w' msg :
    converse payload h w = (w1, Raise (ThrottlingException msg)) →
    throttled payload h k w1 w' →
    throttled payload h (S k) w w'.

(** The prompts of a session submitted one after the other, as the loop
    of [main] does; the session ends at the first exception. *)
Fixpoint session (fuel : nat) (prompts : list string) (st : state W R)
    : option (state W R * result (list pyval)) :=
  match prompts with
  | [] => Some (st, Return [])
  | prompt :: rest =>
      match invoke_with_prompt str_result converse fuel prompt st with
      | Some (st1, Return answer) =>
          match session fuel rest st1 with
          | Some (st2, Return answers) => Some (st2, Return (answer :: answers))
          | other => other
          end
      | Some (st1, Raise e) => Some (st1, Raise e)
      | None => None
      end
  end.
End Conversation.

(** [st'] is a later state of the conversation of [st]: the history has
    only grown at its end, the trace likewise, and every call of the
    endpoint made in between carried a history that starts with the
    history of [st]. *)
Definition history_extends {W R} (st st' : state W R) : Prop :=
  ∃ more evs,
    messages st' = messages st ++ more
    ∧ trace st' = trace st ++ evs
    ∧ Forall (λ e, ∀ payload, e = EvConverse payload →
                 ∃ later, req_messages payload = messages st ++ later) evs.

(** A computation that only extends the history. *)
Definition extending {W R A} (m : M (state W R) A) : Prop :=
  ∀ st st' r, m st = (st', r) → history_extends st st'.

(** A computation that leaves the history as it is. *)
Definition steady {W R A} (m : M (state W R) A) : Prop :=
  ∀ st st' r, m st = (st', r) →
    messages st' = messages st ∧ history_extends st st'.

(** *** Further vocabulary *)

(** Two names that differ at most in having a hyphen where the other has
    a hyphen or an underscore. *)
Fixpoint same_up_to_hyphen (n1 n2 : string) : bool :=
  match n1, n2 with
  | EmptyString, EmptyString => true
  | String c1 r1, String c2 r2 =>
      (Ascii.eqb c1 c2
       || (is_hyphen c1 || is_underscore c1) && (is_hyphen c2 || is_underscore c2))
      && same_up_to_hyphen r1 r2
  | _, _ => false
  end.

(** The keys of a dictionary, in order. *)
Definition dict_keys {V} (d : list (string * V)) : list string := map fst d.

(** The first exception that building the request of a tool-use block
    raises, when the block is a dictionary with the key [toolUse]. *)
Definition tool_block_error (content_item : pyval) : option exn :=
  match content_item with
  | VDict d =>
      match dict_get "toolUse" d with
      | Some tool_use =>
          match py_getitem tool_use "toolUseId" with
          | Raise e => Some e
          | Return _ =>
              match py_getitem tool_use "name" with
              | Raise e => Some e
              | Return _ =>
                  match py_getitem tool_use "input" with
                  | Raise e => Some e
                  | Return _ => None
                  end
              end
          end
      | None => None
      end
  | _ => None
  end.

(** The number of calls of [invoke] in a trace: each one sleeps once
    before it calls the endpoint. *)
Fixpoint invoke_calls (t : list event) : nat :=
  match t with
  | [] => 0
  | EvAsyncSleep _ :: t' => S (invoke_calls t')
  | _ :: t' => invoke_calls t'
  end.

(** A computation that changes neither the history nor the number of
    calls of [invoke] in the trace. *)
Definition quiet {W R A} (m : M (state W R) A) : Prop :=
  ∀ st st' r, m st = (st', r) →
    messages st' = messages st
    ∧ invoke_calls (trace st') = invoke_calls (trace st).


(** ** Sample data for the concrete instances *)

Definition tool_first {W} : executor W string :=
  λ name input, ret ("first:" +:+ name).
Definition tool_second {W} : executor W string :=
  λ name input, ret ("second:" +:+ name).
Definition tool_failing {W} : executor W string :=
  λ name input, raise (Exception "connection lost").

Definition sample_registry {W} : registry W string :=
  register_tool
    (register_tool empty_registry "get-data" tool_first "Reads data" (Ref 0))
    "broken" tool_failing "Always fails" (Ref 1).

(** The schema of ["get-data"] is wrapped and lacks [required]; the
    schema of ["broken"] is an empty dictionary. *)
Definition sample_store : store :=
  [ODict [("json", Ref 2)];
   ODict [];
   ODict [("type", Atom (AStr "string")); ("properties", Ref 3)];
   ODict []].

Definition tool_request (id name : string) : pyval :=
  VDict [("toolUseId", VStr id); ("name", VStr name);
         ("input", VDict [("q", VStr "x")])].

Definition sample_request (name : string) : pyval :=
  tool_request "tooluse_1" name.

Definition sample_state {W} (w : W) : state W string :=
  {| model_id := "anthropic.claude-3-5-sonnet-20241022-v2:0";
     messages := [];
     tools := sample_registry;
     heap := sample_store;
     world := w;
     trace := [] |}.

Definition assistant_message (blocks : list pyval) : pyval :=
  VDict [("role", VStr "assistant"); ("content", VList blocks)].

Definition sample_response (stop_reason : string) (blocks : list pyval) : pyval :=
  VDict [("output", VDict [("message", assistant_message blocks)]);
         ("stopReason", VStr stop_reason)].

Definition tool_use_block (id name : string) : pyval :=
  VDict [("toolUse",
          VDict [("toolUseId", VStr id); ("name", VStr name);
                 ("input", VDict [("q", VStr "x")])])].

Definition text_block (text : string) : pyval := VDict [("text", VStr text)].

(** An endpoint that answers every call with the same text. *)
Definition endpoint_text (text : string) : request → store → M unit pyval :=
  λ payload h, ret (sample_response "end_turn" [text_block text]).

(** An endpoint that throttles its first [failures] calls, counted in the
    state of the outside, and then answers [final]. *)
Definition endpoint_throttling (failures : nat) (final : result pyval)
    : request → store → M nat pyval :=
  λ payload h calls,
    (S calls,
     if calls <? failures
     then Raise (ThrottlingException "Too many requests")
     else final).

(** A client that is not connected, and one connected to a server with
    a single tool that echoes its name. *)
Definition client_offline {W} : mcp_client W string :=
  {| mcp_session := None |}.

Definition session_echo {W} : client_session W string :=
  {| session_list_tools :=
       ret [{| mcp_name := "get-data"; mcp_description := "Reads data";
               mcp_inputSchema := Ref 3 |}];
     session_call_tool := λ name params, ret ("called " +:+ name) |}.

Definition client_online {W} : mcp_client W string :=
  {| mcp_session := Some session_echo |}.

(** An endpoint that asks for one tool at its first call and answers
    with a text afterwards. *)
Definition endpoint_tool_then_text : request → store → M nat pyval :=
  λ payload h calls,
    (S calls,
     if calls =? 0
     then Return (sample_response "tool_use" [tool_use_block "tooluse_1" "get_data"])
     else Return (sample_response "end_turn" [text_block "Done"])).

(** * Properties *)

(** ** Dictionaries *)

Section DictFacts.
Context {V : Type}.
Implicit Types (d : list (string * V)) (k : string) (v : V).

Lemma dict_get_app k d d' :
  dict_get k (d ++ d') =
  match dict_get k d with Some x => Some x | None => dict_get k d' end.
Proof.
  induction d as [|[k0 v0] d IH]; simpl; [done|].
  by destruct (String.eqb k k0).
Qed.

Lemma dict_get_setdefault k k' v d :
  dict_get k (dict_setdefault k' v d) =
  match dict_get k d with
  | Some x => Some x
  | None => if String.eqb k k' then Some v else None
  end.
Proof.
  unfold dict_setdefault. destruct (dict_get k' d) as [x|] eqn:Hk'.
  - destruct (String.eqb_spec k k') as [->|Hne].
    + by rewrite Hk'.
    + by destruct (dict_get k d).
  - rewrite dict_get_app. simpl. by destruct (dict_get k d).
Qed.


Lemma dict_get_set_eq k v d : dict_get k (dict_set k v d) = Some v.
Proof.
  induction d as [|[k0 v0] d IH]; simpl.
  - by rewrite String.eqb_refl.
  - destruct (String.eqb k k0) eqn:E; simpl; by rewrite E.
Qed.

Lemma dict_get_set_ne k k' v d :
  k ≠ k' → dict_get k' (dict_set k v d) = dict_get k' d.
Proof.
  intros Hne. induction d as [|[k0 v0] d IH]; simpl.
  - destruct (String.eqb_spec k' k); [congruence|done].
  - destruct (String.eqb_spec k k0) as [->|Hk]; simpl.
    + destruct (String.eqb_spec k' k0); [congruence|done].
    + by destruct (String.eqb k' k0).
Qed.

Lemma dict_mem_get k d :
  dict_mem k d = true ↔ ∃ x, dict_get k d = Some x.
Proof.
  unfold dict_mem. destruct (dict_get k d); split; eauto; try done.
  by intros [? ?].
Qed.
End DictFacts.

(** ** The store *)

Lemma deref_Some a h o : h !! a = Some o → deref a h = (h, Return o).
Proof. unfold deref. by intros ->. Qed.

Lemma contains_pure key v h h' r : contains key v h = (h', r) → h' = h.
Proof.
  destruct v as [[| | |s]|a]; simpl; unfold ret, raise, bind, deref;
    try (intros [= <- _]; done).
  destruct (h !! a) as [[d|l]|]; intros [= <- _]; done.
Qed.

Lemma getitem_pure v key h h' r : getitem v key h = (h', r) → h' = h.
Proof.
  destruct v as [[| | |s]|a]; simpl; unfold ret, raise, bind, deref;
    try (intros [= <- _]; done).
  destruct (h !! a) as [[d|l]|]; [destruct (dict_get key d)| |];
    intros [= <- _]; done.
Qed.

Lemma getitem_Ref a key d v h :
  h !! a = Some (ODict d) → dict_get key d = Some v →
  getitem (Ref a) key h = (h, Return v).
Proof. intros Ha Hk. simpl. unfold bind. rewrite (deref_Some a h _ Ha). by rewrite Hk. Qed.

Lemma getitem_Return v key h x :
  getitem v key h = (h, Return x) →
  ∃ a d, v = Ref a ∧ h !! a = Some (ODict d) ∧ dict_get key d = Some x.
Proof.
  destruct v as [[| | |s]|a]; simpl; unfold ret, raise, bind, deref; try done.
  destruct (h !! a) as [[d|l]|] eqn:Ha; try done.
  destruct (dict_get key d) as [y|] eqn:Hk; try done.
  intros [= <-]. eauto.
Qed.

Lemma getattr_setdefault_Ref j d h :
  h !! j = Some (ODict d) → getattr_setdefault (Ref j) h = (h, Return j).
Proof. intros Hj. simpl. unfold bind. by rewrite (deref_Some j h _ Hj). Qed.

Lemma getattr_setdefault_inv v h h' r :
  getattr_setdefault v h = (h', r) →
  h' = h ∧ ∀ m, r = Return m → v = Ref m ∧ ∃ d, h !! m = Some (ODict d).
Proof.
  destruct v as [a|a]; simpl; unfold ret, raise, bind, deref.
  - intros [= <- <-]. split; [done|]. intros m [=].
  - destruct (h !! a) as [[d|l]|] eqn:Ha; intros [= <- <-]; split; try done.
    + intros m [= <-]. eauto.
Qed.

Lemma call_setdefault_dict j key v d h :
  h !! j = Some (ODict d) →
  call_setdefault j key v h =
  (<[j := ODict (dict_setdefault key v d)]> h, Return tt).
Proof. intros Hj. unfold call_setdefault, bind. by rewrite (deref_Some j h _ Hj). Qed.

(** ** Evolution of the store under [get_tools] *)

Lemma is_default_not_json n0 h v : ¬ is_default n0 h "json" v.
Proof. by intros [[? _]|[[? _]|[? _]]]. Qed.

Lemma is_default_mono n0 h h' k v :
  (∀ a o, n0 ≤ a → h !! a = Some o → h' !! a = Some o) →
  is_default n0 h k v → is_default n0 h' k v.
Proof.
  intros Hfresh [H|[[-> (p & -> & Hp & Hl)]|[-> (r & -> & Hr & Hl)]]].
  - by left.
  - right; left. split; [done|]. exists p. eauto.
  - right; right. split; [done|]. exists r. eauto.
Qed.

Lemma dict_filled_refl n0 h d : dict_filled n0 h d d.
Proof. intros k. destruct (dict_get k d); auto. Qed.

Lemma evolves_refl n0 h : evolves n0 h h.
Proof.
  repeat split; auto. intros a d Ha. exists d. split; [done|apply dict_filled_refl].
Qed.

Lemma evolves_trans n0 h1 h2 h3 :
  evolves n0 h1 h2 → evolves n0 h2 h3 → evolves n0 h1 h3.
Proof.
  intros (Hlen1 & Hfresh1 & Hlist1 & Hdict1) (Hlen2 & Hfresh2 & Hlist2 & Hdict2).
  repeat split; eauto with lia.
  intros a d1 Ha. destruct (Hdict1 a d1 Ha) as (d2 & Ha2 & Hf12).
  destruct (Hdict2 a d2 Ha2) as (d3 & Ha3 & Hf23).
  exists d3. split; [done|]. intros k. specialize (Hf12 k). specialize (Hf23 k).
  destruct (dict_get k d1) as [v|].
  - by rewrite Hf12 in Hf23.
  - destruct Hf12 as [Hnone|(v & Hv & Hdef)].
    + by rewrite Hnone in Hf23.
    + rewrite Hv in Hf23. right. exists v. split; [done|].
      by apply (is_default_mono n0 h2).
Qed.

Lemma evolves_alloc n0 h o : evolves n0 h (h ++ [o]).
Proof.
  assert (∀ a x, h !! a = Some x → (h ++ [o]) !! a = Some x) as Hkeep.
  { intros a x Ha. rewrite lookup_app_l; [done|]. by eapply lookup_lt_Some. }
  repeat split; eauto.
  - rewrite length_app. lia.
  - intros a d Ha. exists d. split; [eauto|apply dict_filled_refl].
Qed.

Lemma evolves_setdefault n0 h j d k v :
  j < n0 → h !! j = Some (ODict d) → is_default n0 h k v →
  evolves n0 h (<[j := ODict (dict_setdefault k v d)]> h).
Proof.
  intros Hj Hd Hdef.
  assert (∀ a o, n0 ≤ a → h !! a = Some o →
            <[j := ODict (dict_setdefault k v d)]> h !! a = Some o) as Hfresh.
  { intros a o Ha Ho. rewrite list_lookup_insert_ne by lia. done. }
  repeat split.
  - by rewrite length_insert.
  - done.
  - intros a l Ha. rewrite list_lookup_insert_ne; [done|]. intros ->. congruence.
  - intros a d0 Ha. destruct (decide (a = j)) as [->|Hne].
    + assert (d0 = d) as -> by congruence.
      exists (dict_setdefault k v d). split.
      { apply list_lookup_insert_eq. by eapply lookup_lt_Some. }
      intros k0. rewrite dict_get_setdefault.
      destruct (dict_get k0 d) as [x|]; [done|].
      destruct (String.eqb_spec k0 k) as [->|_]; [|by left].
      right. exists v. split; [done|]. by apply (is_default_mono n0 h).
    + exists d0. split; [by rewrite list_lookup_insert_ne|apply dict_filled_refl].
Qed.

Lemma getitem_evolves n0 h h' s key v :
  evolves n0 h h' →
  getitem s key h = (h, Return v) → getitem s key h' = (h', Return v).
Proof.
  intros (_ & _ & _ & Hdict) (a & d & -> & Ha & Hk)%getitem_Return.
  destruct (Hdict a d Ha) as (d' & Ha' & Hfill).
  specialize (Hfill key). rewrite Hk in Hfill. by eapply getitem_Ref.
Qed.

Lemma dict_filled_mem_json n0 h d d' :
  dict_filled n0 h d d' → dict_mem "json" d' = dict_mem "json" d.
Proof.
  intros Hfill. specialize (Hfill "json"). unfold dict_mem.
  destruct (dict_get "json" d) as [v|].
  - by rewrite Hfill.
  - destruct Hfill as [->|(v & _ & Hdef)]; [done|].
    by apply is_default_not_json in Hdef.
Qed.

Lemma contains_json_evolves n0 h h' v :
  evolves n0 h h' → val_closed h v →
  ∃ r, contains "json" v h = (h, r) ∧ contains "json" v h' = (h', r).
Proof.
  intros (_ & _ & Hlist & Hdict) Hv.
  destruct v as [[| | |s]|a]; simpl; unfold ret, raise, bind; eauto.
  simpl in Hv. destruct (lookup_lt_is_Some_2 h a Hv) as [o Ho].
  rewrite (deref_Some a h o Ho). destruct o as [d|l].
  - destruct (Hdict a d Ho) as (d' & Ho' & Hfill).
    rewrite (deref_Some a h' _ Ho').
    rewrite (dict_filled_mem_json n0 h' d d' Hfill). eauto.
  - rewrite (deref_Some a h' _ (Hlist a l Ho)). eauto.
Qed.

Lemma has_defaults_filled n0 h d d' :
  dict_filled n0 h d d' → has_defaults d → has_defaults d'.
Proof.
  intros Hfill Hd. unfold has_defaults in *.
  eapply Forall_impl; [exact Hd|]. simpl. intros k [v Hk].
  specialize (Hfill k). rewrite Hk in Hfill. eauto.
Qed.

Lemma setdefault_json_ok n0 s j dj key default h :
  j < n0 →
  getitem s "json" h = (h, Return (Ref j)) →
  h !! j = Some (ODict dj) →
  (∃ hm v, default h = (hm, Return v) ∧ evolves n0 h hm ∧ is_default n0 hm key v) →
  ∃ h' dj',
    setdefault_json s key default h = (h', Return tt)
    ∧ evolves n0 h h'
    ∧ h' !! j = Some (ODict dj')
    ∧ is_Some (dict_get key dj').
Proof.
  intros Hj Hget Hdj (hm & v & Hdefault & Hev & Hdef).
  destruct Hev as (Hlen & Hfresh & Hlist & Hdict).
  destruct (Hdict j dj Hdj) as (djm & Hjm & Hfill).
  exists (<[j := ODict (dict_setdefault key v djm)]> hm), (dict_setdefault key v djm).
  split; [|split; [|split]].
  - unfold setdefault_json, bind. rewrite Hget.
    rewrite (getattr_setdefault_Ref j dj h Hdj), Hdefault.
    apply (call_setdefault_dict j key v djm hm Hjm).
  - eapply evolves_trans; [by repeat split|]. by apply evolves_setdefault.
  - apply list_lookup_insert_eq. by eapply lookup_lt_Some.
  - rewrite dict_get_setdefault. destruct (dict_get key djm); [by eauto|].
    rewrite String.eqb_refl. eauto.
Qed.

Lemma setdefault_json_fail s h :
  (∃ j dj, getitem s "json" h = (h, Return (Ref j)) ∧ h !! j = Some (ODict dj))
  ∨ (∀ key default, ∃ e, setdefault_json s key default h = (h, Raise e)).
Proof.
  destruct (getitem s "json" h) as [h1 [vj|e]] eqn:Hget;
    pose proof (getitem_pure _ _ _ _ _ Hget) as ->.
  - destruct (getattr_setdefault vj h) as [h1 [m|e]] eqn:Hattr;
      destruct (getattr_setdefault_inv _ _ _ _ Hattr) as [-> Hm].
    + destruct (Hm m eq_refl) as (-> & d & Hd). left. eauto.
    + right. intros key default. exists e.
      unfold setdefault_json, bind. by rewrite Hget, Hattr.
  - right. intros key default. exists e.
    unfold setdefault_json, bind. by rewrite Hget.
Qed.

Lemma new_dict_default n0 h :
  n0 ≤ length h →
  ∃ hm v, new_dict h = (hm, Return v) ∧ evolves n0 h hm
          ∧ is_default n0 hm "properties" v.
Proof.
  intros Hn. exists (h ++ [ODict []]), (Ref (length h)).
  split; [done|]. split; [apply evolves_alloc|].
  right; left. split; [done|]. exists (length h). repeat split; [done|].
  by rewrite list_lookup_middle.
Qed.

Lemma new_list_default n0 h :
  n0 ≤ length h →
  ∃ hm v, new_list h = (hm, Return v) ∧ evolves n0 h hm
          ∧ is_default n0 hm "required" v.
Proof.
  intros Hn. exists (h ++ [OList []]), (Ref (length h)).
  split; [done|]. split; [apply evolves_alloc|].
  right; right. split; [done|]. exists (length h). repeat split; [done|].
  by rewrite list_lookup_middle.
Qed.

Lemma object_default n0 h :
  ∃ hm v, @ret store _ (Atom (AStr "object")) h = (hm, Return v)
          ∧ evolves n0 h hm ∧ is_default n0 hm "type" v.
Proof.
  exists h, (Atom (AStr "object")). split; [done|].
  split; [apply evolves_refl|]. by left.
Qed.

Lemma evolves_key_kept n0 h h' j d d' k :
  evolves n0 h h' → h !! j = Some (ODict d) → h' !! j = Some (ODict d') →
  is_Some (dict_get k d) → is_Some (dict_get k d').
Proof.
  intros (_ & _ & _ & Hdict) Hj Hj' [v Hk].
  destruct (Hdict j d Hj) as (d'' & Hj'' & Hfill).
  assert (d'' = d') as -> by congruence.
  specialize (Hfill k). rewrite Hk in Hfill. eauto.
Qed.

Lemma evolves_length n0 h h' : evolves n0 h h' → length h ≤ length h'.
Proof. by intros (? & _). Qed.

Lemma dict_get_Forall {V} (P : V → Prop) k (d : list (string * V)) v :
  Forall (λ kv, P kv.2) d → dict_get k d = Some v → P v.
Proof.
  induction 1 as [|[k0 v0] d Hv _ IH]; simpl; [done|].
  destruct (String.eqb k k0); [by intros [= <-]|done].
Qed.

(** The three [setdefault] lines of [get_tools], once the dictionary
    under [json] is known to be there. *)
Lemma three_defaults {A} n0 s j dj (x : A) h :
  j < n0 → n0 ≤ length h →
  getitem s "json" h = (h, Return (Ref j)) →
  h !! j = Some (ODict dj) →
  ∃ h' dj',
    (setdefault_json s "type" (ret (Atom (AStr "object"))) ;;;
     setdefault_json s "properties" new_dict ;;;
     setdefault_json s "required" new_list ;;;
     ret x) h = (h', Return x)
    ∧ evolves n0 h h'
    ∧ getitem s "json" h' = (h', Return (Ref j))
    ∧ h' !! j = Some (ODict dj')
    ∧ has_defaults dj'.
Proof.
  intros Hj Hn Hget Hdj.
  destruct (setdefault_json_ok n0 s j dj "type" _ h Hj Hget Hdj (object_default n0 h))
    as (h1 & d1 & Hrun1 & Hev1 & Hd1 & Htype).
  pose proof (getitem_evolves _ _ _ _ _ _ Hev1 Hget) as Hget1.
  pose proof (evolves_length _ _ _ Hev1) as Hlen1.
  destruct (setdefault_json_ok n0 s j d1 "properties" _ h1 Hj Hget1 Hd1
              (new_dict_default n0 h1 ltac:(lia)))
    as (h2 & d2 & Hrun2 & Hev2 & Hd2 & Hprops).
  pose proof (getitem_evolves _ _ _ _ _ _ Hev2 Hget1) as Hget2.
  pose proof (evolves_length _ _ _ Hev2) as Hlen2.
  destruct (setdefault_json_ok n0 s j d2 "required" _ h2 Hj Hget2 Hd2
              (new_list_default n0 h2 ltac:(lia)))
    as (h3 & d3 & Hrun3 & Hev3 & Hd3 & Hreq).
  exists h3, d3. split; [|split; [|split; [|split]]].
  - unfold bind at 1. rewrite Hrun1. unfold bind at 1. rewrite Hrun2.
    unfold bind at 1. by rewrite Hrun3.
  - eauto using evolves_trans.
  - by eapply getitem_evolves.
  - done.
  - repeat constructor; [|by eapply evolves_key_kept|done].
    eapply (evolves_key_kept n0 h2 h3); [done..|].
    by eapply (evolves_key_kept n0 h1 h2).
Qed.

Section GetToolsRun.
Context {W R : Type}.
Implicit Types (entry : string * tool W R) (reg : registry W R).

Lemma get_tools_entry_evolves h0 h entry h' r :
  closed h0 → val_closed h0 (input_schema entry.2) →
  evolves (length h0) h0 h →
  get_tools_entry entry h = (h', r) →
  evolves (length h0) h h'
  ∧ ∀ spec, r = Return spec → spec_built h0 h' entry spec.
Proof.
  intros Hclosed Hv Hev. destruct entry as [key t]. simpl in Hv.
  pose proof (evolves_length _ _ _ Hev) as Hlen.
  destruct (contains_json_evolves _ _ _ _ Hev Hv) as (rc & Hc0 & Hc).
  unfold get_tools_entry. unfold bind at 1. rewrite Hc.
  destruct rc as [[|]|e]; simpl.
  - (* the stored schema has the key [json] *)
    unfold bind at 1. unfold ret at 1.
    destruct (setdefault_json_fail (input_schema t) h)
      as [(j & dj & Hget & Hdj)|Hfail].
    + assert (j < length h0) as Hj.
      { destruct (getitem_Return _ _ _ _ Hget) as (a & d & Ha & Hd & Hk).
        rewrite Ha in Hv. simpl in Hv.
        destruct (lookup_lt_is_Some_2 h0 a Hv) as [o0 Ho0].
        destruct Hev as (_ & _ & Hlist & Hdict). destruct o0 as [d0|l0].
        - destruct (Hdict a d0 Ho0) as (d' & Hd' & Hfill).
          assert (d' = d) as -> by congruence.
          specialize (Hfill "json"). destruct (dict_get "json" d0) as [x|] eqn:Hx.
          + assert (x = Ref j) as -> by congruence.
            unfold closed in Hclosed. rewrite Forall_lookup in Hclosed.
            pose proof (Hclosed a _ Ho0) as Hobj. simpl in Hobj.
            apply (dict_get_Forall (val_closed h0) "json" d0 (Ref j) Hobj Hx).
          + destruct Hfill as [Hnone|(x & _ & Hdef)]; [congruence|].
            by apply is_default_not_json in Hdef.
        - pose proof (Hlist a l0 Ho0). congruence. }
      destruct (three_defaults (length h0) (input_schema t) j dj
                  {| spec_name := key; spec_description := description t;
                     spec_inputSchema := input_schema t |} h Hj Hlen Hget Hdj)
        as (h1 & dj' & Hrun & Hev1 & Hget1 & Hdj' & Hfull).
      rewrite Hrun. intros [= <- <-]. split; [done|].
      intros spec [= <-]. repeat split; simpl.
      exists true, j, dj'. by repeat split.
    + destruct (Hfail "type" (ret (Atom (AStr "object")))) as [e Hrun].
      unfold bind at 1. rewrite Hrun. intros [= <- <-].
      split; [apply evolves_refl|]. by intros spec [=].
  - (* it has not: it is wrapped *)
    unfold bind at 1. unfold bind at 1. unfold alloc at 1. unfold ret at 1.
    set (wrapper := ODict [("json", input_schema t)]).
    assert ((h ++ [wrapper]) !! length h = Some wrapper) as Hw
        by (by apply list_lookup_middle).
    pose proof (evolves_alloc (length h0) h wrapper) as Hev1.
    destruct (setdefault_json_fail (Ref (length h)) (h ++ [wrapper]))
      as [(j & dj & Hget & Hdj)|Hfail].
    + assert (input_schema t = Ref j) as Hschema.
      { destruct (getitem_Return _ _ _ _ Hget) as (a & d & [= <-] & Hd & Hk).
        rewrite Hw in Hd. injection Hd as <-. simpl in Hk. congruence. }
      assert (j < length h0) as Hj by (by rewrite Hschema in Hv).
      destruct (three_defaults (length h0) (Ref (length h)) j dj
                  {| spec_name := key; spec_description := description t;
                     spec_inputSchema := Ref (length h) |} (h ++ [wrapper]) Hj
                  ltac:(rewrite length_app; lia) Hget Hdj)
        as (h2 & dj' & Hrun & Hev2 & Hget2 & Hdj' & Hfull).
      rewrite Hrun. intros [= <- <-]. split; [by eapply evolves_trans|].
      intros spec [= <-]. repeat split; simpl.
      exists false, j, dj'. repeat split; try done.
      exists (length h). repeat split; [done|].
      destruct Hev2 as (_ & Hfresh & _). by apply Hfresh.
    + destruct (Hfail "type" (ret (Atom (AStr "object")))) as [e Hrun].
      unfold bind at 1. rewrite Hrun. intros [= <- <-].
      split; [done|]. by intros spec [=].
  - intros [= <- <-]. split; [apply evolves_refl|]. by intros spec [=].
Qed.
End GetToolsRun.

Section GetToolsLoop.
Context {W R : Type}.
Implicit Types (entry : string * tool W R) (reg : registry W R).

Lemma spec_built_evolves h0 h' h'' entry spec :
  evolves (length h0) h' h'' →
  spec_built h0 h' entry spec → spec_built h0 h'' entry spec.
Proof.
  intros Hev (Hname & Hdescr & wrapped & j & dj' & Hc & Hwrap & Hget & Hj & Hdj & Hfull).
  pose proof Hev as (_ & Hfresh & _ & Hdict).
  destruct (Hdict j dj' Hdj) as (dj'' & Hdj'' & Hfill).
  split; [done|]. split; [done|]. exists wrapped, j, dj''.
  repeat split; try done.
  - destruct wrapped; [done|]. destruct Hwrap as (w & Hs & Hw & Hlook).
    exists w. eauto.
  - by eapply getitem_evolves.
  - by eapply has_defaults_filled.
Qed.

Lemma get_tools_loop h0 entries h h' r :
  closed h0 →
  Forall (λ e : string * tool W R, val_closed h0 (input_schema e.2)) entries →
  evolves (length h0) h0 h →
  for_each get_tools_entry entries h = (h', r) →
  evolves (length h0) h h'
  ∧ ∀ specs, r = Return specs → Forall2 (spec_built h0 h') entries specs.
Proof.
  intros Hclosed Hall. revert h h' r.
  induction Hall as [|entry entries Hentry _ IH]; intros h h' r Hev; simpl.
  - intros [= <- <-]. split; [apply evolves_refl|].
    intros specs [= <-]. constructor.
  - unfold bind at 1.
    destruct (get_tools_entry entry h) as [h1 [spec|e]] eqn:Hrun.
    + destruct (get_tools_entry_evolves h0 h entry h1 _ Hclosed Hentry Hev Hrun)
        as [Hev1 Hspec].
      unfold bind at 1.
      destruct (for_each get_tools_entry entries h1) as [h2 [specs|e]] eqn:Hrest.
      * destruct (IH h1 h2 _ (evolves_trans _ _ _ _ Hev Hev1) Hrest) as [Hev2 Hspecs].
        intros [= <- <-]. split; [by eapply evolves_trans|].
        intros ? [= <-]. constructor; [|by apply Hspecs].
        eapply spec_built_evolves; [exact Hev2|by apply Hspec].
      * destruct (IH h1 h2 _ (evolves_trans _ _ _ _ Hev Hev1) Hrest) as [Hev2 _].
        intros [= <- <-]. split; [by eapply evolves_trans|]. by intros ? [=].
    + destruct (get_tools_entry_evolves h0 h entry h1 _ Hclosed Hentry Hev Hrun)
        as [Hev1 _].
      intros [= <- <-]. split; [done|]. by intros ? [=].
Qed.

Lemma spec_built_spec_for h0 h' entry spec :
  evolves (length h0) h0 h' →
  spec_built h0 h' entry spec → spec_for h0 h' entry spec.
Proof.
  intros (_ & _ & Hlist & Hdict)
         (Hname & Hdescr & wrapped & j & dj' & Hc & Hwrap & Hget & Hj & Hdj & Hfull).
  destruct (lookup_lt_is_Some_2 h0 j Hj) as [[dj|lj] Hj0].
  - destruct (Hdict j dj Hj0) as (d' & Hd' & Hfill).
    assert (d' = dj') as -> by congruence.
    split; [done|]. split; [done|]. exists wrapped, j, dj, dj'. by repeat split.
  - pose proof (Hlist j lj Hj0). congruence.
Qed.

Lemma get_tools_entry_returns h0 h entry :
  schema_well_formed h0 (input_schema entry.2) →
  evolves (length h0) h0 h →
  ∃ h' spec, get_tools_entry entry h = (h', Return spec)
             ∧ evolves (length h0) h h'.
Proof.
  intros (a & d0 & Hschema & Ha0 & Hjson) Hev. destruct entry as [key t].
  simpl in Hschema. pose proof (evolves_length _ _ _ Hev) as Hlen.
  pose proof Hev as (_ & _ & _ & Hdict).
  destruct (Hdict a d0 Ha0) as (d & Ha & Hfill).
  unfold get_tools_entry. rewrite Hschema. unfold bind at 1. simpl.
  unfold bind at 1. rewrite (deref_Some a h _ Ha). unfold ret at 1.
  rewrite (dict_filled_mem_json _ _ _ _ Hfill). unfold dict_mem.
  pose proof (Hfill "json") as Hfj.
  destruct (dict_get "json" d0) as [vj|]; simpl.
  - destruct Hjson as (j & dj0 & -> & Hj0).
    destruct (Hdict j dj0 Hj0) as (dj & Hj & _).
    unfold bind at 1. unfold ret at 1.
    destruct (three_defaults (length h0) (Ref a) j dj
                {| spec_name := key; spec_description := description t;
                   spec_inputSchema := Ref a |} h
                (lookup_lt_Some _ _ _ Hj0) Hlen
                (getitem_Ref a "json" d (Ref j) h Ha Hfj) Hj)
      as (h1 & dj' & Hrun & Hev1 & _).
    rewrite Hrun. eauto.
  - unfold bind at 1. unfold bind at 1. unfold alloc at 1. unfold ret at 1.
    set (wrapper := ODict [("json", Ref a)]).
    assert (getitem (Ref (length h)) "json" (h ++ [wrapper])
            = (h ++ [wrapper], Return (Ref a))) as Hget.
    { apply (getitem_Ref _ _ [("json", Ref a)]); [|done].
      by apply list_lookup_middle. }
    destruct (three_defaults (length h0) (Ref (length h)) a d
                {| spec_name := key; spec_description := description t;
                   spec_inputSchema := Ref (length h) |} (h ++ [wrapper])
                (lookup_lt_Some _ _ _ Ha0) ltac:(rewrite length_app; lia) Hget
                ltac:(rewrite lookup_app_l; [done|by eapply lookup_lt_Some]))
      as (h1 & dj' & Hrun & Hev1 & _).
    rewrite Hrun. exists h1. eexists. split; [done|].
    eapply evolves_trans; [apply evolves_alloc|done].
Qed.

Lemma get_tools_loop_returns h0 entries h :
  Forall (λ e : string * tool W R, schema_well_formed h0 (input_schema e.2)) entries →
  evolves (length h0) h0 h →
  ∃ h' specs, for_each get_tools_entry entries h = (h', Return specs).
Proof.
  intros Hall. revert h.
  induction Hall as [|entry entries Hentry _ IH]; intros h Hev; simpl.
  - by exists h, [].
  - destruct (get_tools_entry_returns h0 h entry Hentry Hev)
      as (h1 & spec & Hrun & Hev1).
    destruct (IH h1 (evolves_trans _ _ _ _ Hev Hev1)) as (h2 & specs & Hrest).
    exists h2, (spec :: specs). unfold bind at 1. rewrite Hrun.
    unfold bind at 1. by rewrite Hrest.
Qed.
End GetToolsLoop.

(** C5: on a store without dangling references, whenever every stored
    schema is a dictionary whose entry [json], if present, is a
    dictionary, [get_tools] returns; and each spec it returns passes the
    stored schema on unwrapped exactly when it already has the key
    [json], wraps it under [json] otherwise, and has under [json] a
    dictionary with the keys [type], [properties] and [required], in
    which every entry present before the call is unchanged and every
    other entry is the default ["object"], [{}], [[]]. *)
Theorem get_tools_fills_defaults {W R} (reg : registry W R) (h : store) :
  closed h → registry_closed h reg →
  (Forall (λ e, schema_well_formed h (input_schema e.2)) (_tools reg) →
   ∃ h' specs, get_tools reg h = (h', Return specs))
  ∧ (∀ h' specs, get_tools reg h = (h', Return specs) →
       Forall2 (spec_for h h') (_tools reg) specs).
Proof.
  intros Hclosed Hreg. split.
  - intros Hwf. by apply (get_tools_loop_returns h _ h Hwf), evolves_refl.
  - intros h' specs Hrun.
    destruct (get_tools_loop h _ h h' _ Hclosed Hreg (evolves_refl _ _) Hrun)
      as [Hev Hspecs].
    eapply Forall2_impl; [by apply Hspecs|].
    intros entry spec. by apply spec_built_spec_for.
Qed.

(** ** A second run of [get_tools] *)






Section GetToolsAgain.
Context {W R : Type}.
Implicit Types (entry : string * tool W R) (reg : registry W R).




End GetToolsAgain.


(** ** Sanitized names *)

Lemma replace_hyphens_no_hyphen name :
  string_forall (λ c, negb (is_hyphen c)) (replace_hyphens name) = true.
Proof.
  induction name as [|c rest IH]; simpl; [done|].
  rewrite IH, andb_true_r. unfold is_hyphen.
  destruct (Ascii.eqb_spec c "-") as [->|Hc]; [done|].
  by destruct (Ascii.eqb_spec c "-").
Qed.

Lemma replace_hyphens_get name i :
  String.get i (replace_hyphens name) =
  (λ c, if is_hyphen c then "_"%char else c) <$> String.get i name.
Proof.
  revert i. induction name as [|c rest IH]; intros [|i]; simpl; auto.
Qed.

Lemma replace_hyphens_identifier_safe name :
  string_forall (λ c, is_identifier_char c || is_hyphen c) name = true →
  identifier_safe (replace_hyphens name) = true.
Proof.
  unfold identifier_safe.
  induction name as [|c rest IH]; simpl; [done|].
  intros [Hc Hrest]%andb_true_iff. rewrite (IH Hrest), andb_true_r.
  unfold is_hyphen in *. destruct (Ascii.eqb_spec c "-") as [->|_]; [done|].
  by rewrite orb_false_r in Hc.
Qed.

Lemma replace_hyphens_inj n1 n2 :
  string_forall (λ c, negb (is_underscore c)) n1 = true →
  string_forall (λ c, negb (is_underscore c)) n2 = true →
  replace_hyphens n1 = replace_hyphens n2 → n1 = n2.
Proof.
  revert n2. induction n1 as [|c1 r1 IH]; intros [|c2 r2]; simpl; try done.
  intros [H1 Hr1]%andb_true_iff [H2 Hr2]%andb_true_iff Heq.
  injection Heq as Hc Hr. f_equal; [|by apply IH].
  unfold is_underscore in *.
  destruct (Ascii.eqb_spec c1 "-") as [->|N1], (Ascii.eqb_spec c2 "-") as [->|N2];
    try done; subst; by rewrite Ascii.eqb_refl in *.
Qed.

(** ** Executing a tool *)

Section ExecuteFacts.
Context {W R : Type} (str_result : R → string).
Implicit Types (reg : registry W R) (payload id input : pyval) (w : W).

Lemma execute_tool_unknown reg payload id a w :
  py_getitem payload "toolUseId" = Return id →
  py_getitem payload "name" = Return (VAtom a) →
  (∀ s, a = AStr s → dict_get s (_tools reg) = None) →
  execute_tool str_result reg payload w =
  (w, Return (_error_response id ("Unknown tool: " +:+ str_atom a))).
Proof.
  intros Hid Hname Hnot. unfold execute_tool, bind, lift_result.
  rewrite Hid, Hname. simpl.
  destruct a as [|b|z|s]; simpl; try done.
  unfold dict_mem. by rewrite (Hnot s eq_refl).
Qed.

Lemma execute_tool_known reg payload id s t w :
  py_getitem payload "toolUseId" = Return id →
  py_getitem payload "name" = Return (VStr s) →
  dict_get s (_tools reg) = Some t →
  execute_tool str_result reg payload w =
  match py_getitem payload "input" with
  | Return input =>
      match function t (original_name t) input w with
      | (w', Return r) => (w', Return (success_response id (str_result r)))
      | (w', Raise e) => (w', Return (_error_response id (str_exn e)))
      end
  | Raise e => (w, Return (_error_response id (str_exn e)))
  end.
Proof.
  intros Hid Hname Ht. unfold execute_tool, bind, lift_result, try_except.
  rewrite Hid, Hname. simpl. unfold dict_mem. rewrite Ht. simpl.
  destruct (py_getitem payload "input") as [input|e]; [|done].
  by destruct (function t (original_name t) input w) as [w' [r|e]].
Qed.
End ExecuteFacts.

(** C6: a request that carries a [toolUseId] and a hashable [name] that
    is not a key of the registry is answered, without raising and without
    calling any executor, by the envelope with status ["error"], the
    request's [toolUseId] unchanged and the single text block
    ["Error executing tool: Unknown tool: <name>"]. *)
Theorem execute_tool_unknown_name {W R} (str_result : R → string)
    (reg : registry W R) (payload id : pyval) (a : atom) (w : W) :
  py_getitem payload "toolUseId" = Return id →
  py_getitem payload "name" = Return (VAtom a) →
  (∀ s, a = AStr s → dict_get s (_tools reg) = None) →
  execute_tool str_result reg payload w =
  (w, Return
        (VDict [("toolUseId", id);
                ("content",
                 VList [VDict [("text",
                    VStr ("Error executing tool: Unknown tool: " +:+ str_atom a))]]);
                ("status", VStr "error")])).
Proof.
  intros Hid Hname Hnot.
  by rewrite (execute_tool_unknown str_result reg payload id a w).
Qed.

(** C7: for a registered name and a complete request, [execute_tool]
    calls the bound executor with the original name and the input and
    always returns: the success envelope with the stringified result when
    the executor returns, the error envelope with
    ["Error executing tool: <message>"] when it raises; the [toolUseId]
    is the request's in both. *)
Theorem execute_tool_absorbs_failures {W R} (str_result : R → string)
    (reg : registry W R) (payload id input : pyval) (s : string)
    (t : tool W R) (w : W) :
  py_getitem payload "toolUseId" = Return id →
  py_getitem payload "name" = Return (VStr s) →
  py_getitem payload "input" = Return input →
  dict_get s (_tools reg) = Some t →
  execute_tool str_result reg payload w =
  match function t (original_name t) input w with
  | (w', Return r) =>
      (w', Return
             (VDict [("toolUseId", id);
                     ("content", VList [VDict [("text", VStr (str_result r))]]);
                     ("status", VStr "success")]))
  | (w', Raise e) =>
      (w', Return
             (VDict [("toolUseId", id);
                     ("content",
                      VList [VDict [("text",
                         VStr ("Error executing tool: " +:+ str_exn e))]]);
                     ("status", VStr "error")]))
  end.
Proof.
  intros Hid Hname Hinput Ht.
  rewrite (execute_tool_known str_result reg payload id s t w Hid Hname Ht).
  by rewrite Hinput.
Qed.

(** C10: [toolUseId] and [name] are read before the protected region, so
    a request dictionary without one of them makes [execute_tool] raise
    the [KeyError]; [input] is read inside it, so a request for a
    registered tool without [input] is answered by the error envelope
    that carries the [KeyError]'s text. *)
Theorem execute_tool_missing_keys {W R} (str_result : R → string)
    (reg : registry W R) (d : list (string * pyval)) (w : W) :
  (dict_get "toolUseId" d = None →
   execute_tool str_result reg (VDict d) w = (w, Raise (KeyError (AStr "toolUseId"))))
  ∧ (∀ id, dict_get "toolUseId" d = Some id →
       dict_get "name" d = None →
       execute_tool str_result reg (VDict d) w = (w, Raise (KeyError (AStr "name"))))
  ∧ (∀ id s t, dict_get "toolUseId" d = Some id →
       dict_get "name" d = Some (VStr s) →
       dict_get s (_tools reg) = Some t →
       dict_get "input" d = None →
       execute_tool str_result reg (VDict d) w =
       (w, Return
             (VDict [("toolUseId", id);
                     ("content",
                      VList [VDict [("text", VStr "Error executing tool: 'input'")]]);
                     ("status", VStr "error")]))).
Proof.
  split; [|split].
  - intros Hid. unfold execute_tool, bind, lift_result. simpl. by rewrite Hid.
  - intros id Hid Hname. unfold execute_tool, bind, lift_result. simpl.
    by rewrite Hid, Hname.
  - intros id s t Hid Hname Ht Hinput.
    rewrite (execute_tool_known str_result reg (VDict d) id s t w); simpl;
      [by rewrite Hinput | by rewrite Hid | by rewrite Hname | done].
Qed.

Lemma register_all_other_key {W R} (reg : registry W R) calls key :
  Forall (λ c, replace_hyphens c.1.1.1 ≠ key) calls →
  dict_get key (_tools (register_all reg calls)) = dict_get key (_tools reg).
Proof.
  unfold register_all. revert reg.
  induction calls as [|[[[name func] descr] schema] calls IH]; intros reg Hall;
    simpl; [done|].
  inversion Hall as [|? ? Hne Hrest]; subst. rewrite IH by done.
  simpl. by apply dict_get_set_ne.
Qed.

(** C3 (amended): the key under which [register_tool] stores a tool is
    the name with each hyphen replaced by an underscore and every other
    character kept: it is identifier-safe when hyphens are the only
    non-identifier characters of the name, and names without underscores
    never share a key.  After the registration, and after any later
    registrations under other keys, [execute_tool] with that key calls
    the executor just registered, passing it the original name. *)
Theorem register_tool_dispatch {W R} (str_result : R → string)
    (reg : registry W R) (name : string) (func : executor W R)
    (descr : string) (schema : val) :
  (∀ i, String.get i (replace_hyphens name) =
        (λ c, if is_hyphen c then "_"%char else c) <$> String.get i name)
  ∧ (string_forall (λ c, is_identifier_char c || is_hyphen c) name = true →
     identifier_safe (replace_hyphens name) = true)
  ∧ (∀ name', string_forall (λ c, negb (is_underscore c)) name = true →
       string_forall (λ c, negb (is_underscore c)) name' = true →
       replace_hyphens name' = replace_hyphens name → name' = name)
  ∧ dict_get (replace_hyphens name)
      (_name_mapping (register_tool reg name func descr schema)) = Some name
  ∧ (∀ later payload id input w,
       Forall (λ c, replace_hyphens c.1.1.1 ≠ replace_hyphens name) later →
       py_getitem payload "toolUseId" = Return id →
       py_getitem payload "name" = Return (VStr (replace_hyphens name)) →
       py_getitem payload "input" = Return input →
       execute_tool str_result
         (register_all (register_tool reg name func descr schema) later)
         payload w =
       match func name input w with
       | (w', Return r) => (w', Return (success_response id (str_result r)))
       | (w', Raise e) => (w', Return (_error_response id (str_exn e)))
       end).
Proof.
  split; [apply replace_hyphens_get|].
  split; [apply replace_hyphens_identifier_safe|].
  split; [intros name' H1 H2 Heq; by apply replace_hyphens_inj|].
  split; [simpl; apply dict_get_set_eq|].
  intros later payload id input w Hlater Hid Hname Hinput.
  set (t := {| function := func; description := descr;
               input_schema := schema; original_name := name |}).
  assert (dict_get (replace_hyphens name)
            (_tools (register_all (register_tool reg name func descr schema) later))
          = Some t) as Ht.
  { rewrite register_all_other_key by done. simpl. apply dict_get_set_eq. }
  rewrite (execute_tool_known str_result _ payload id _ t w Hid Hname Ht).
  by rewrite Hinput.
Qed.

Lemma register_tool_dispatch_witness :
  identifier_safe (replace_hyphens "get-data") = true
  ∧ execute_tool (λ r, r)
      (register_all
         (register_tool empty_registry "get-data" tool_first "Reads data" (Ref 0))
         [("broken", tool_failing, "Always fails", Ref 1)])
      (sample_request "get_data") tt =
    (tt, Return (success_response (VStr "tooluse_1") "first:get-data")).
Proof.
  pose proof (register_tool_dispatch (W:=unit) (λ r : string, r) empty_registry
                "get-data" tool_first "Reads data" (Ref 0))
    as (_ & Hsafe & _ & _ & Hexec).
  split; [by apply Hsafe|].
  apply (Hexec [("broken", tool_failing, "Always fails", Ref 1)]
           (sample_request "get_data") (VStr "tooluse_1") (VDict [("q", VStr "x")]) tt).
  - repeat constructor. simpl. discriminate.
  - reflexivity.
  - reflexivity.
  - reflexivity.
Defined.

(** C3, as stated, fails: a dot is not an identifier character and is
    kept in the key, and the names ["a-b"] and ["a_b"] share the key
    ["a_b"], under which the executor registered last answers. *)
Lemma sanitized_key_counterexample :
  (map fst (_tools (register_tool (@empty_registry unit string)
                      "get.data" tool_first "" (Ref 0))) = ["get.data"]
   ∧ identifier_safe "get.data" = false)
  ∧ (replace_hyphens "a-b" = replace_hyphens "a_b"
     ∧ execute_tool (λ r, r)
         (register_tool
            (register_tool empty_registry "a-b" tool_first "" (Ref 0))
            "a_b" tool_second "" (Ref 1))
         (sample_request (replace_hyphens "a-b")) tt =
       (tt, Return (success_response (VStr "tooluse_1") "second:a_b"))).
Proof. repeat split. Qed.

Lemma execute_tool_unknown_name_witness :
  execute_tool (W:=unit) (λ r, r) sample_registry (sample_request "nope") tt =
  (tt, Return
         (VDict [("toolUseId", VStr "tooluse_1");
                 ("content",
                  VList [VDict [("text",
                     VStr "Error executing tool: Unknown tool: nope")]]);
                 ("status", VStr "error")])).
Proof.
  apply (execute_tool_unknown_name (λ r : string, r) sample_registry
           (sample_request "nope") (VStr "tooluse_1") (AStr "nope") tt).
  - reflexivity.
  - reflexivity.
  - intros s Hs. injection Hs as <-. reflexivity.
Defined.

Lemma execute_tool_absorbs_failures_witness :
  execute_tool (W:=unit) (λ r, r) sample_registry (sample_request "broken") tt =
  (tt, Return
         (VDict [("toolUseId", VStr "tooluse_1");
                 ("content",
                  VList [VDict [("text",
                     VStr "Error executing tool: connection lost")]]);
                 ("status", VStr "error")])).
Proof.
  apply (execute_tool_absorbs_failures (λ r : string, r) sample_registry
           (sample_request "broken") (VStr "tooluse_1")
           (VDict [("q", VStr "x")]) "broken"
           {| function := tool_failing; description := "Always fails";
              input_schema := Ref 1; original_name := "broken" |} tt);
    reflexivity.
Defined.

Lemma execute_tool_missing_keys_witness :
  execute_tool (W:=unit) (λ r, r) sample_registry
    (VDict [("name", VStr "get_data"); ("input", VNone)]) tt =
  (tt, Raise (KeyError (AStr "toolUseId")))
  ∧ execute_tool (W:=unit) (λ r, r) sample_registry
      (VDict [("toolUseId", VStr "tooluse_1"); ("input", VNone)]) tt =
    (tt, Raise (KeyError (AStr "name")))
  ∧ execute_tool (W:=unit) (λ r, r) sample_registry
      (VDict [("toolUseId", VStr "tooluse_1"); ("name", VStr "get_data")]) tt =
    (tt, Return
           (VDict [("toolUseId", VStr "tooluse_1");
                   ("content",
                    VList [VDict [("text", VStr "Error executing tool: 'input'")]]);
                   ("status", VStr "error")])).
Proof.
  split; [|split].
  - by apply (execute_tool_missing_keys (λ r : string, r) sample_registry
                [("name", VStr "get_data"); ("input", VNone)] tt).
  - destruct (execute_tool_missing_keys (λ r : string, r) sample_registry
                [("toolUseId", VStr "tooluse_1"); ("input", VNone)] tt)
      as (_ & Hname & _).
    by apply (Hname (VStr "tooluse_1")).
  - destruct (execute_tool_missing_keys (λ r : string, r) sample_registry
                [("toolUseId", VStr "tooluse_1"); ("name", VStr "get_data")] tt)
      as (_ & _ & Hinput).
    by apply (Hinput (VStr "tooluse_1") "get_data"
                {| function := tool_first; description := "Reads data";
                   input_schema := Ref 0; original_name := "get-data" |}).
Defined.

(** ** Concrete instances for the tool specifications *)

Lemma sample_store_closed : closed sample_store.
Proof. unfold closed, sample_store. repeat constructor; simpl; lia. Defined.

Lemma sample_registry_closed : registry_closed (W:=unit) sample_store sample_registry.
Proof. unfold registry_closed. repeat constructor; simpl; lia. Defined.

Lemma get_tools_fills_defaults_witness :
  ∃ h' specs,
    get_tools (W:=unit) sample_registry sample_store = (h', Return specs)
    ∧ Forall2 (spec_for sample_store h') (_tools (W:=unit) sample_registry) specs.
Proof.
  destruct (get_tools_fills_defaults (W:=unit) sample_registry sample_store
              sample_store_closed sample_registry_closed) as [Hreturns Hspecs].
  destruct Hreturns as (h' & specs & Hrun).
  - repeat constructor; simpl.
    + exists 0, [("json", Ref 2)]. repeat split. simpl. eauto.
    + exists 1, []. by repeat split.
  - exists h', specs. split; [exact Hrun|]. by apply Hspecs.
Defined.



(** ** Handling a response *)

Section HandleResponse.
Context {W R : Type} (str_result : R → string).
Context (converse : request → store → M W pyval).
Implicit Types (st : state W R) (response msg : pyval).

Lemma handle_response_prefix response msg sr st :
  output_message response = Return msg →
  py_getitem response "stopReason" = Return sr →
  (message <- lift_result (output_message response) ;;
   messages_append message ;;;
   lift_result (py_getitem response "stopReason")) st
  = (set_messages (messages st ++ [msg]) st, Return sr).
Proof. intros Hmsg Hsr. unfold bind, lift_result, messages_append, modify. by rewrite Hmsg, Hsr. Qed.

Lemma first_block_text_answer response msg blocks st :
  output_message response = Return msg →
  py_getitem msg "content" = Return (VList blocks) →
  (∀ block rest, blocks = block :: rest → ∃ d, block = VDict d) →
  try_except (first_block_text response)
    (λ e, match e with
          | KeyError _ | IndexError _ => ret (VStr "")
          | _ => raise e
          end) st
  = (st, Return (first_block_answer blocks)).
Proof.
  intros Hmsg Hcontent Hdict.
  unfold try_except, first_block_text, bind, lift_result.
  rewrite Hmsg, Hcontent. destruct blocks as [|block rest]; simpl; [done|].
  destruct (Hdict block rest eq_refl) as [d ->]. simpl.
  by destruct (dict_get "text" d).
Qed.
End HandleResponse.

(** C4 (amended): for a response with a terminal stop condition whose
    content is a list of dictionaries, response handling appends the
    model's message to the history, changes nothing else, and returns the
    text of the first content block when that block has the key [text],
    and the empty string when the content is empty or its first block
    has no text. *)
Theorem terminal_response_answer {W R} (str_result : R → string)
    (converse : request → store → M W pyval) (fuel : nat)
    (response msg sr : pyval) (blocks : list pyval) (st : state W R) :
  output_message response = Return msg →
  py_getitem response "stopReason" = Return sr →
  py_eq_str sr "end_turn" || py_eq_str sr "stop_sequence" = true →
  py_getitem msg "content" = Return (VList blocks) →
  (∀ block rest, blocks = block :: rest → ∃ d, block = VDict d) →
  _handle_response str_result converse fuel response st =
  Some (set_messages (messages st ++ [msg]) st, Return (first_block_answer blocks)).
Proof.
  intros Hmsg Hsr Hstop Hcontent Hdict.
  unfold _handle_response, _handle_response_with.
  rewrite (handle_response_prefix response msg sr st Hmsg Hsr).
  rewrite Hstop. f_equal.
  by apply first_block_text_answer with (msg := msg).
Qed.

(** ** The tool-use branch *)

Section ToolUse.
Context {W R : Type} (str_result : R → string).
Context (converse : request → store → M W pyval).
Implicit Types (st : state W R) (reg : registry W R) (response msg : pyval).

Lemma execute_tool_returns reg id a input w :
  ∃ w' res,
    execute_tool str_result reg
      (VDict [("toolUseId", id); ("name", VAtom a); ("input", input)]) w
    = (w', Return res)
    ∧ py_getitem res "toolUseId" = Return id.
Proof.
  set (req := VDict [("toolUseId", id); ("name", VAtom a); ("input", input)]).
  assert (∀ s, a = AStr s → dict_get s (_tools reg) = None
          ∨ ∃ t, dict_get s (_tools reg) = Some t) as Hcases.
  { intros s _. destruct (dict_get s (_tools reg)); eauto. }
  assert (∀ a', (∀ s, a' = AStr s → dict_get s (_tools reg) = None) →
            ∃ w' res,
              execute_tool str_result reg
                (VDict [("toolUseId", id); ("name", VAtom a'); ("input", input)]) w
              = (w', Return res)
              ∧ py_getitem res "toolUseId" = Return id) as Hunknown.
  { intros a' Hnot. eexists _, _. split; [|shelve].
    by apply (execute_tool_unknown str_result reg _ id a').
    Unshelve. done. }
  destruct a as [|b|z|s]; try (apply Hunknown; by intros ? [=]).
  destruct (Hcases s eq_refl) as [Hnone|[t Ht]].
  - apply Hunknown. by intros ? [= <-].
  - rewrite (execute_tool_known str_result reg req id s t w) by done. simpl.
    destruct (function t (original_name t) input w) as [w' [r|e]]; by eexists _, _.
Qed.

Lemma tool_request_of_ok block :
  content_block_ok block →
  match tool_request_of block with
  | Some req =>
      py_contains "toolUse" block = Return true
      ∧ ∃ tool_use id a input,
          py_getitem block "toolUse" = Return tool_use
          ∧ py_getitem tool_use "toolUseId" = Return id
          ∧ py_getitem tool_use "name" = Return (VAtom a)
          ∧ py_getitem tool_use "input" = Return input
          ∧ req = VDict [("toolUseId", id); ("name", VAtom a); ("input", input)]
  | None => py_contains "toolUse" block = Return false
  end.
Proof.
  intros (d & -> & Hd). unfold tool_request_of, py_contains, dict_mem.
  destruct (dict_get "toolUse" d) as [tool_use|] eqn:Htu; [|done].
  destruct Hd as (id & a & input & Hid & Hname & Hinput).
  rewrite Hid, Hname, Hinput. split; [done|].
  exists tool_use, id, a, input. repeat split; try done.
  simpl. by rewrite Htu.
Qed.

Lemma handle_content_item_tool_use block tool_use id name input st :
  py_contains "toolUse" block = Return true →
  py_getitem block "toolUse" = Return tool_use →
  py_getitem tool_use "toolUseId" = Return id →
  py_getitem tool_use "name" = Return name →
  py_getitem tool_use "input" = Return input →
  handle_content_item str_result block st =
  match execute_tool str_result (tools st)
          (VDict [("toolUseId", id); ("name", name); ("input", input)]) (world st) with
  | (w1, r) =>
      (set_world w1
         (set_trace
            (trace st ++ [EvExecuteTool
               (VDict [("toolUseId", id); ("name", name); ("input", input)])]) st),
       match r with
       | Return res => Return [tool_result_block res]
       | Raise e => Raise e
       end)
  end.
Proof.
  intros Hin Htu Hid Hname Hinput.
  unfold handle_content_item, bind, lift_result, gets, log, modify, with_world.
  rewrite Hin, Htu, Hid, Hname, Hinput.
  remember (execute_tool str_result) as exec. destruct st; simpl.
  by destruct (exec _ _ _) as [w1 [res|e]].
Qed.

Lemma handle_content_items blocks st :
  Forall content_block_ok blocks →
  ∃ w' results appended,
    for_each (execute_tool str_result (tools st)) (tool_requests blocks)
      (world st) = (w', Return results)
    ∧ Forall2 (λ req res, py_getitem res "toolUseId" = py_getitem req "toolUseId")
        (tool_requests blocks) results
    ∧ for_each (handle_content_item str_result) blocks st =
      (set_trace (trace st ++ map EvExecuteTool (tool_requests blocks))
         (set_world w' st),
       Return appended)
    ∧ concat appended = map tool_result_block results.
Proof.
  intros Hall. revert st.
  induction Hall as [|block blocks Hblock _ IH]; intros st; simpl.
  - exists (world st), [], []. repeat split; [constructor|].
    unfold ret. destruct st; simpl. by rewrite app_nil_r.
  - pose proof (tool_request_of_ok block Hblock) as Hreq.
    destruct (tool_request_of block) as [req|].
    + destruct Hreq as (Hin & tool_use & id & a & input & Htu & Hid & Hname & Hinput & ->).
      destruct (execute_tool_returns (tools st) id a input (world st))
        as (w1 & res & Hexec & Hres).
      set (req := VDict [("toolUseId", id); ("name", VAtom a); ("input", input)]) in *.
      set (st1 := set_world w1 (set_trace (trace st ++ [EvExecuteTool req]) st)).
      destruct (IH st1) as (w' & results & appended & Hrun & Hids & Hloop & Hcat).
      exists w', (res :: results), ([tool_result_block res] :: appended).
      split; [|split; [|split]].
      * simpl. unfold bind at 1. rewrite Hexec. unfold bind at 1.
        simpl in Hrun. by rewrite Hrun.
      * constructor; [by rewrite Hres|done].
      * unfold bind at 1.
        rewrite (handle_content_item_tool_use block tool_use id (VAtom a) input st
                   Hin Htu Hid Hname Hinput).
        fold req. rewrite Hexec. fold st1.
        unfold bind at 1. rewrite Hloop. unfold ret. f_equal.
        subst st1. unfold set_trace, set_world. simpl. f_equal.
        by rewrite <- app_assoc.
      * simpl. by rewrite Hcat.
    + destruct (IH st) as (w' & results & appended & Hrun & Hids & Hloop & Hcat).
      exists w', results, ([] :: appended). repeat split; try done.
      unfold bind at 1.
      assert (handle_content_item str_result block st = (st, Return [])) as ->.
      { unfold handle_content_item, bind, lift_result. by rewrite Hreq. }
      unfold bind at 1. by rewrite Hloop.
Qed.
End ToolUse.


(** ** Retrying a throttled call *)

Lemma backoff_events_calls payload delay k :
  converse_calls (backoff_events payload delay k) = S k.
Proof. revert delay. induction k as [|k IH]; intros delay; simpl; [done|]. by rewrite IH. Qed.

Lemma backoff_events_total payload delay k :
  backoff_total (backoff_events payload delay k) = (delay * (2 ^ Z.of_nat k - 1))%Z.
Proof.
  revert delay. induction k as [|k IH]; intros delay.
  - simpl. lia.
  - change (backoff_total (backoff_events payload delay (S k)))
      with (delay + backoff_total (backoff_events payload (delay * 2) k))%Z.
    rewrite IH, Nat2Z.inj_succ, Z.pow_succ_r by lia. lia.
Qed.

Section Retry.
Context {W R : Type}.
Context (converse : request → store → M W pyval).
Implicit Types (st : state W R) (payload : request).

Lemma converse_attempts_throttled payload k :
  ∀ n i delay st w_k w' out,
    k < n → i + n = max_retries →
    throttled converse payload (heap st) k (world st) w_k →
    converse payload (heap st) w_k = (w', out) →
    (∀ msg, out = Raise (ThrottlingException msg) → n = S k) →
    converse_attempts converse (seq i n) delay payload st =
    (set_world w' (set_trace (trace st ++ backoff_events payload delay k) st), out).
Proof.
  induction k as [|k IH]; intros n i delay st w_k w' out Hk Hn Hthr Hlast Hout.
  - inversion Hthr; subst. destruct n as [|n]; [lia|]. simpl.
    unfold try_except, bind, log, modify, gets, with_world. simpl.
    rewrite Hlast. destruct out as [response|e]; [done|].
    destruct e; try done.
    rewrite (Hout msg eq_refl) in Hn.
    assert (i = 4) as -> by (unfold max_retries in Hn; lia). done.
  - inversion Hthr as [|? ? w1 ? msg Hfirst Hrest]; subst.
    destruct n as [|n]; [lia|]. simpl.
    unfold try_except at 1, bind at 1, log at 1, modify at 1.
    unfold bind at 1, gets at 1. unfold with_world at 1. simpl.
    rewrite Hfirst.
    assert ((i <? 4) = true) as ->.
    { apply Nat.ltb_lt. unfold max_retries in *. lia. }
    unfold bind at 1, log at 1, modify at 1.
    rewrite (IH n (S i) (delay * 2)%Z _ w_k w' out); simpl; try done; try lia.
    + f_equal. unfold set_world, set_trace. simpl. f_equal.
      by rewrite <- !app_assoc.
    + intros msg' Hmsg. pose proof (Hout msg' Hmsg). lia.
Qed.
End Retry.

(** C2: suppose that [get_tools] has returned, that the first [k] calls
    of the endpoint ([k] at most 4) are answered by a throttling error,
    and that the next call is answered by [out]: a response, an error of
    another kind, or, at the fifth call only, a throttling error again.
    Then [_get_converse_response] ends with [out], returned or raised,
    after exactly [k + 1] calls, having slept 1, 2, 4, ... seconds
    between them, [2 ^ k - 1] in all: 15 when four calls were throttled,
    whether the fifth succeeds or is throttled in its turn. *)
Theorem retry_policy {W R} (converse : request → store → M W pyval)
    (st : state W R) (h' : store) (specs : list tool_spec) (k : nat)
    (w_k w' : W) (out : result pyval) :
  get_tools (tools st) (heap st) = (h', Return specs) →
  k < max_retries →
  throttled converse (payload_of st specs) h' k (world st) w_k →
  converse (payload_of st specs) h' w_k = (w', out) →
  (∀ msg, out = Raise (ThrottlingException msg) → S k = max_retries) →
  _get_converse_response converse st =
    (set_world w'
       (set_trace (trace st ++ backoff_events (payload_of st specs) 1 k)
          (set_heap h' st)),
     out)
  ∧ converse_calls (backoff_events (payload_of st specs) 1 k) = S k
  ∧ backoff_total (backoff_events (payload_of st specs) 1 k) = (2 ^ Z.of_nat k - 1)%Z
  ∧ (k = 4 → backoff_total (backoff_events (payload_of st specs) 1 k) = 15%Z).
Proof.
  intros Htools Hk Hthr Hlast Hout.
  split; [|split; [|split]].
  - unfold _get_converse_response.
    unfold bind at 1, gets at 1. unfold bind at 1, gets at 1.
    unfold bind at 1, gets at 1. unfold bind at 1, with_heap at 1.
    rewrite Htools.
    apply (converse_attempts_throttled converse (payload_of st specs) k
             max_retries 0 1%Z (set_heap h' st) w_k w' out); try done.
    intros msg Hmsg. by rewrite (Hout msg Hmsg).
  - apply backoff_events_calls.
  - rewrite backoff_events_total. lia.
  - intros ->. by rewrite backoff_events_total.
Qed.

(** ** The history *)

Section History.
Context {W R : Type} (str_result : R → string).
Context (converse : request → store → M W pyval).
Implicit Types (st : state W R) (response msg content : pyval).

Lemma history_extends_refl st : history_extends st st.
Proof. exists [], []. by rewrite !app_nil_r. Qed.

Lemma history_extends_trans st1 st2 st3 :
  history_extends st1 st2 → history_extends st2 st3 → history_extends st1 st3.
Proof.
  intros (m1 & e1 & Hm1 & Ht1 & He1) (m2 & e2 & Hm2 & Ht2 & He2).
  exists (m1 ++ m2), (e1 ++ e2).
  rewrite Hm2, Hm1, Ht2, Ht1, !app_assoc. repeat split.
  apply Forall_app. split; [done|].
  eapply Forall_impl; [exact He2|]. simpl. intros e He payload Hp.
  destruct (He payload Hp) as [later Hlater]. exists (m1 ++ later).
  by rewrite Hlater, Hm1, app_assoc.
Qed.

Lemma steady_extending {A} (m : M (state W R) A) : steady m → extending m.
Proof. intros Hm st st' r Hrun. by apply (Hm st st' r). Qed.

Lemma steady_ret {A} (a : A) : steady (W:=W) (R:=R) (ret a).
Proof. intros st st' r [= <- _]. split; [done|apply history_extends_refl]. Qed.

Lemma steady_raise {A} e : steady (W:=W) (R:=R) (A:=A) (raise e).
Proof. intros st st' r [= <- _]. split; [done|apply history_extends_refl]. Qed.

Lemma steady_lift_result {A} (x : result A) : steady (W:=W) (R:=R) (lift_result x).
Proof. intros st st' r [= <- _]. split; [done|apply history_extends_refl]. Qed.

Lemma steady_gets {A} (f : state W R → A) : steady (gets f).
Proof. intros st st' r [= <- _]. split; [done|apply history_extends_refl]. Qed.

Lemma steady_with_heap {A} (m : M store A) : steady (W:=W) (R:=R) (with_heap m).
Proof.
  intros st st' r. unfold with_heap. destruct (m (heap st)) as [h x].
  intros [= <- _]. split; [done|]. exists [], []. simpl. by rewrite !app_nil_r.
Qed.

Lemma steady_with_world {A} (m : M W A) : steady (R:=R) (with_world m).
Proof.
  intros st st' r. unfold with_world. destruct (m (world st)) as [w x].
  intros [= <- _]. split; [done|]. exists [], []. simpl. by rewrite !app_nil_r.
Qed.

Lemma steady_bind {A B} (m : M (state W R) A) (k : A → M (state W R) B) :
  steady m → (∀ a, steady (k a)) → steady (bind m k).
Proof.
  intros Hm Hk st st' r. unfold bind.
  destruct (m st) as [st1 [a|e]] eqn:Hrun; destruct (Hm _ _ _ Hrun) as [Hms Hext].
  - intros Hrest. destruct (Hk a _ _ _ Hrest) as [Hms' Hext'].
    split; [congruence|by eapply history_extends_trans].
  - by intros [= <- _].
Qed.

Lemma steady_try_except {A} (m : M (state W R) A) handler :
  steady m → (∀ e, steady (handler e)) → steady (try_except m handler).
Proof.
  intros Hm Hh st st' r. unfold try_except.
  destruct (m st) as [st1 [a|e]] eqn:Hrun; destruct (Hm _ _ _ Hrun) as [Hms Hext].
  - by intros [= <- _].
  - intros Hrest. destruct (Hh e _ _ _ Hrest) as [Hms' Hext'].
    split; [congruence|by eapply history_extends_trans].
Qed.

Lemma steady_for_each {A B} (body : A → M (state W R) B) xs :
  (∀ x, steady (body x)) → steady (for_each body xs).
Proof.
  intros Hbody. induction xs as [|x xs IH]; simpl; [apply steady_ret|].
  apply steady_bind; [done|]. intros y.
  apply steady_bind; [done|]. intros ys. apply steady_ret.
Qed.

Lemma steady_log e :
  (∀ payload, e ≠ EvConverse payload) → steady (W:=W) (R:=R) (log e).
Proof.
  intros He st st' r [= <- _]. split; [done|]. exists [], [e]. simpl.
  rewrite app_nil_r. repeat split. constructor; [|done].
  intros payload ->. by destruct (He payload).
Qed.

Lemma converse_attempts_steady attempts delay payload st st' r :
  req_messages payload = messages st →
  converse_attempts converse attempts delay payload st = (st', r) →
  messages st' = messages st ∧ history_extends st st'.
Proof.
  revert delay st.
  induction attempts as [|attempt rest IH]; intros delay st Hpayload; simpl.
  - apply steady_ret.
  - unfold try_except at 1, bind at 1, log at 1, modify at 1.
    unfold bind at 1, gets at 1. unfold with_world at 1. simpl.
    destruct (converse payload (heap st) (world st)) as [w [response|e]] eqn:Hcall.
    + intros [= <- _]. split; [done|]. exists [], [EvConverse payload]. simpl.
      rewrite app_nil_r. repeat split. constructor; [|done].
      intros ? [= <-]. exists []. by rewrite app_nil_r.
    + set (st1 := set_world w (set_trace (trace st ++ [EvConverse payload]) st)).
      assert (history_extends st st1) as Hext1.
      { exists [], [EvConverse payload]. simpl. rewrite app_nil_r. repeat split.
        constructor; [|done]. intros ? [= <-]. exists []. by rewrite app_nil_r. }
      assert (∀ x : result pyval, (st1, Raise e) = (st', x) →
                messages st' = messages st ∧ history_extends st st') as Hraise.
      { by intros x [= <- _]. }
      destruct e; try (unfold raise; by apply Hraise).
      destruct (attempt <? 4); [|unfold raise; by apply Hraise].
      unfold bind at 1, log at 1, modify at 1. intros Hrest.
      apply IH in Hrest; [|done]. destruct Hrest as [Hms Hext].
      split; [done|]. eapply history_extends_trans; [|exact Hext].
      exists [], [EvConverse payload; EvSleep delay]. simpl.
      rewrite app_nil_r, <- app_assoc. repeat split.
      constructor; [|by constructor].
      intros ? [= <-]. exists []. by rewrite app_nil_r.
Qed.

Lemma get_converse_response_steady :
  steady (_get_converse_response (R:=R) converse).
Proof.
  intros st st' r. unfold _get_converse_response.
  unfold bind at 1, gets at 1. unfold bind at 1, gets at 1.
  unfold bind at 1, gets at 1. unfold bind at 1.
  destruct (with_heap (get_tools (tools st)) st) as [st1 [specs|e]] eqn:Htools;
    destruct (steady_with_heap _ _ _ _ Htools) as [Hms Hext].
  - intros Hloop. apply converse_attempts_steady in Hloop; [|by rewrite Hms].
    destruct Hloop as [Hms' Hext']. split; [congruence|].
    by eapply history_extends_trans.
  - by intros [= <- _].
Qed.

Lemma handle_content_item_steady content_item :
  steady (handle_content_item (W:=W) str_result content_item).
Proof.
  unfold handle_content_item.
  apply steady_bind; [apply steady_lift_result|]. intros [|]; [|apply steady_ret].
  repeat (apply steady_bind; [apply steady_lift_result|]; intros ?).
  apply steady_bind; [apply steady_gets|]. intros reg.
  apply steady_bind; [by apply steady_log|]. intros _.
  apply steady_bind; [apply steady_with_world|]. intros ?. apply steady_ret.
Qed.

Lemma collect_tool_response_steady response :
  steady (collect_tool_response (W:=W) str_result response).
Proof.
  unfold collect_tool_response.
  repeat (apply steady_bind; [apply steady_lift_result|]; intros ?).
  apply steady_bind; [|intros ?; apply steady_ret].
  apply steady_for_each, handle_content_item_steady.
Qed.

Lemma terminal_answer_steady response :
  steady (W:=W) (R:=R)
    (try_except (first_block_text response)
       (λ e, match e with
             | KeyError _ | IndexError _ => ret (VStr "")
             | _ => raise e
             end)).
Proof.
  apply steady_try_except.
  - unfold first_block_text.
    repeat (apply steady_bind; [apply steady_lift_result|]; intros ?).
    apply steady_lift_result.
  - intros []; (apply steady_ret || apply steady_raise).
Qed.

Lemma messages_append_extends m st :
  history_extends st (set_messages (messages st ++ [m]) st).
Proof. exists [m], []. simpl. by rewrite app_nil_r. Qed.

(** The part of [_handle_response] that precedes the dispatch on the
    stop condition. *)
Lemma handle_response_prefix_cases response st st1 x :
  (message <- lift_result (output_message response) ;;
   messages_append message ;;;
   lift_result (py_getitem response "stopReason")) st = (st1, x) →
  match output_message response with
  | Return msg =>
      st1 = set_messages (messages st ++ [msg]) st
      ∧ x = py_getitem response "stopReason"
  | Raise e => st1 = st ∧ x = Raise e
  end.
Proof.
  unfold bind, lift_result, messages_append, modify.
  destruct (output_message response) as [msg|e]; [|by intros [= <- <-]].
  by destruct (py_getitem response "stopReason"); intros [= <- <-].
Qed.

Lemma handle_response_with_history invoke_rec response st st' r :
  (∀ content s s' r', invoke_rec content s = Some (s', r') → history_extends s s') →
  _handle_response_with str_result invoke_rec response st = Some (st', r) →
  history_extends st st'
  ∧ ∀ msg, output_message response = Return msg →
      ∃ more, messages st' = messages st ++ msg :: more.
Proof.
  intros Hrec. unfold _handle_response_with.
  destruct ((message <- lift_result (output_message response) ;;
             messages_append message ;;;
             lift_result (py_getitem response "stopReason")) st)
    as [st1 x] eqn:Hprefix.
  apply handle_response_prefix_cases in Hprefix.
  destruct (output_message response) as [msg|e].
  - destruct Hprefix as [-> ->].
    set (st1 := set_messages (messages st ++ [msg]) st).
    assert (∀ s, history_extends st1 s →
              history_extends st s
              ∧ ∀ msg', Return msg = Return msg' →
                  ∃ more, messages s = messages st ++ msg' :: more) as Hfrom.
    { intros s Hext. split.
      - eapply history_extends_trans; [apply messages_append_extends|exact Hext].
      - intros msg' [= <-]. destruct Hext as (more & _ & Hms & _).
        exists more. rewrite Hms. simpl. by rewrite <- app_assoc. }
    destruct (py_getitem response "stopReason") as [sr|e].
    + destruct (py_eq_str sr "end_turn" || py_eq_str sr "stop_sequence").
      { destruct (try_except _ _ st1) as [s x] eqn:Hrun. intros [= <- _].
        apply Hfrom. by apply (terminal_answer_steady response st1 s x). }
      destruct (py_eq_str sr "tool_use").
      * destruct (collect_tool_response str_result response st1)
          as [st2 [tool_response|e]] eqn:Hrun;
          destruct (collect_tool_response_steady response _ _ _ Hrun) as [_ Hext].
        -- intros Hinvoke. apply Hfrom.
           eapply history_extends_trans; [exact Hext|by eapply Hrec].
        -- intros [= <- _]. by apply Hfrom.
      * intros [= <- _]. apply Hfrom, history_extends_refl.
    + intros [= <- _]. apply Hfrom, history_extends_refl.
  - destruct Hprefix as [-> ->]. intros [= <- _].
    split; [apply history_extends_refl|done].
Qed.

Lemma invoke_history fuel :
  ∀ content st st' r,
    invoke str_result converse fuel content st = Some (st', r) →
    history_extends (set_messages (messages st ++ [user_message content]) st) st'.
Proof.
  induction fuel as [|fuel IH]; intros content st st' r; simpl;
    unfold bind at 1, messages_append at 1, modify at 1;
    unfold bind at 1, log at 1, modify at 1;
    fold (user_message content);
    set (st0 := set_messages (messages st ++ [user_message content]) st);
    set (st1 := set_trace _ _);
    (assert (history_extends st0 st1) as Hpace;
     [exists [], [EvAsyncSleep (1 # 2)]; simpl; rewrite app_nil_r;
      repeat split; by repeat constructor|]);
    destruct (_get_converse_response converse st1) as [st2 [response|e]] eqn:Hcall;
    destruct (get_converse_response_steady _ _ _ Hcall) as [_ Hext2].
  - intros Hhandle.
    apply handle_response_with_history in Hhandle as [Hext _]; [|done].
    eauto using history_extends_trans.
  - intros [= <- _]. eauto using history_extends_trans.
  - intros Hhandle.
    apply handle_response_with_history in Hhandle as [Hext _].
    + eauto using history_extends_trans.
    + intros c s s' r' Hrec. apply IH in Hrec.
      eapply history_extends_trans; [apply messages_append_extends|exact Hrec].
  - intros [= <- _]. eauto using history_extends_trans.
Qed.
End History.

Section Turns.
Context {W R : Type} (str_result : R → string).
Context (converse : request → store → M W pyval).
Implicit Types (st : state W R) (response msg content : pyval).

Lemma handle_response_without_invoke response st st' answer :
  _handle_response_with str_result (λ _ _, None) response st
  = Some (st', Return answer) →
  (∃ msg, messages st' = messages st ++ [msg])
  ∧ ∀ invoke_rec,
      _handle_response_with str_result invoke_rec response st
      = Some (st', Return answer).
Proof.
  unfold _handle_response_with.
  destruct ((message <- lift_result (output_message response) ;;
             messages_append message ;;;
             lift_result (py_getitem response "stopReason")) st)
    as [st1 x] eqn:Hprefix.
  apply handle_response_prefix_cases in Hprefix.
  destruct (output_message response) as [msg|e];
    destruct Hprefix as [-> ->]; [|done].
  destruct (py_getitem response "stopReason") as [sr|e]; [|done].
  destruct (py_eq_str sr "end_turn" || py_eq_str sr "stop_sequence").
  { destruct (try_except _ _ _) as [s x] eqn:Hrun.
    destruct (terminal_answer_steady response _ _ _ Hrun) as [Hms _].
    intros [= <- ->]. split; [|done]. exists msg. by rewrite Hms. }
  destruct (py_eq_str sr "tool_use").
  - by destruct (collect_tool_response _ _ _) as [st2 [tool_response|e]].
  - intros [= <- <-]. split; [|done]. by exists msg.
Qed.

Lemma invoke_without_nested content st st' answer :
  invoke str_result converse 0 content st = Some (st', Return answer) →
  (∃ msg, messages st' = messages st ++ [user_message content; msg])
  ∧ ∀ fuel, invoke str_result converse fuel content st = Some (st', Return answer).
Proof.
  assert (∀ fuel, invoke str_result converse fuel content st =
            match (messages_append (user_message content) ;;;
                   log (EvAsyncSleep (1 # 2)) ;;;
                   _get_converse_response converse) st with
            | (st1, Raise e) => Some (st1, Raise e)
            | (st1, Return response) =>
                _handle_response_with str_result
                  (match fuel with
                   | O => λ _ _, None
                   | S fuel' => invoke str_result converse fuel'
                   end) response st1
            end) as Hunfold by (by intros []).
  rewrite (Hunfold 0).
  destruct ((messages_append (user_message content) ;;;
             log (EvAsyncSleep (1 # 2)) ;;;
             _get_converse_response converse) st) as [st1 [response|e]] eqn:Hcall;
    [|done].
  assert (messages st1 = messages st ++ [user_message content]) as Hms1.
  { revert Hcall. unfold bind at 1, messages_append at 1, modify at 1.
    unfold bind at 1, log at 1, modify at 1. intros Hcall.
    by destruct (get_converse_response_steady converse _ _ _ Hcall) as [-> _]. }
  intros Hhandle.
  destruct (handle_response_without_invoke response st1 st' answer Hhandle)
    as [[msg Hms] Hany].
  split.
  - exists msg. by rewrite Hms, Hms1, <- app_assoc.
  - intros fuel. rewrite (Hunfold fuel). apply Hany.
Qed.

Lemma session_without_nested prompts :
  ∀ st st' answers,
    session str_result converse 0 prompts st = Some (st', Return answers) →
    length (messages st') = length (messages st) + 2 * length prompts
    ∧ length answers = length prompts
    ∧ ∀ fuel, session str_result converse fuel prompts st
              = Some (st', Return answers).
Proof.
  induction prompts as [|prompt rest IH]; intros st st' answers; simpl.
  - intros [= <- <-]. repeat split; lia.
  - unfold invoke_with_prompt.
    destruct (invoke str_result converse 0 _ st) as [[st1 [answer|e]]|] eqn:Hturn;
      try done.
    destruct (invoke_without_nested _ st st1 answer Hturn) as [[msg Hms] Hany].
    destruct (session str_result converse 0 rest st1)
      as [[st2 [rest_answers|e]]|] eqn:Hrest; try done.
    intros [= <- <-]. destruct (IH st1 st2 rest_answers Hrest) as (Hlen & Hans & Hfuel).
    split; [|split].
    + rewrite Hlen, Hms, length_app. simpl. lia.
    + simpl. by rewrite Hans.
    + intros fuel. by rewrite Hany, Hfuel.
Qed.
End Turns.

(** C8: the history only grows, and at its end.  A call of [invoke]
    first appends the user message, so that every call of the endpoint it
    makes, directly or in a nested call, carries a history that starts
    with the old history followed by that message; a handled response
    appends the model's message right after the history it finds.  When
    each of the [N] prompts of a session is answered without a nested
    call of [invoke], which is what a turn without tool use is, the
    history is longer by [2 * N], a user message and the model's message
    for each turn, and more fuel changes nothing. *)
Theorem history_append_only {W R} (str_result : R → string)
    (converse : request → store → M W pyval) :
  (∀ fuel content (st st' : state W R) r,
     invoke str_result converse fuel content st = Some (st', r) →
     history_extends (set_messages (messages st ++ [user_message content]) st) st')
  ∧ (∀ fuel response msg (st st' : state W R) r,
       output_message response = Return msg →
       _handle_response str_result converse fuel response st = Some (st', r) →
       ∃ more, messages st' = messages st ++ msg :: more)
  ∧ (∀ prompts (st st' : state W R) answers,
       session str_result converse 0 prompts st = Some (st', Return answers) →
       length (messages st') = length (messages st) + 2 * length prompts
       ∧ length answers = length prompts
       ∧ ∀ fuel, session str_result converse fuel prompts st
                 = Some (st', Return answers)).
Proof.
  split; [|split].
  - intros fuel content st st' r. apply invoke_history.
  - intros fuel response msg st st' r Hmsg Hrun.
    apply handle_response_with_history in Hrun as [_ Hmore]; [by apply Hmore|].
    destruct fuel as [|fuel]; [done|].
    intros c s s' r' Hrec. apply invoke_history in Hrec.
    eapply history_extends_trans; [apply messages_append_extends|exact Hrec].
  - intros prompts st st' answers. apply session_without_nested.
Qed.

(** ** Concrete instances for the conversation *)

Lemma terminal_response_answer_witness :
  _handle_response (λ r, r) (endpoint_text "unused") 0
    (sample_response "end_turn" [text_block "Hello"]) (sample_state tt) =
  Some (set_messages [assistant_message [text_block "Hello"]] (sample_state tt),
        Return (VStr "Hello")).
Proof.
  apply (terminal_response_answer (λ r : string, r) (endpoint_text "unused") 0
           (sample_response "end_turn" [text_block "Hello"])
           (assistant_message [text_block "Hello"]) (VStr "end_turn")
           [text_block "Hello"] (sample_state tt)); try reflexivity.
  intros block rest [= <- _]. by eexists.
Defined.

(** C4, as stated, fails: the content has a text block, after a block of
    another kind, and the answer is the empty string. *)
Lemma terminal_response_counterexample :
  _handle_response (λ r, r) (endpoint_text "unused") 0
    (sample_response "end_turn"
       [VDict [("reasoningContent", VDict [("reasoningText", VStr "thinking")])];
        text_block "The answer"])
    (sample_state tt) =
  Some (set_messages
          [assistant_message
             [VDict [("reasoningContent", VDict [("reasoningText", VStr "thinking")])];
              text_block "The answer"]]
          (sample_state tt),
        Return (VStr "")).
Proof. reflexivity. Qed.


Lemma retry_policy_witness :
  (∃ st',
     _get_converse_response
       (endpoint_throttling 4 (Return (sample_response "end_turn" [text_block "Hi"])))
       (sample_state 0)
     = (st', Return (sample_response "end_turn" [text_block "Hi"]))
     ∧ world st' = 5 ∧ backoff_total (trace st') = 15%Z)
  ∧ (∃ st',
       _get_converse_response
         (endpoint_throttling 5 (Return (sample_response "end_turn" [text_block "Hi"])))
         (sample_state 0)
       = (st', Raise (ThrottlingException "Too many requests"))
       ∧ world st' = 5 ∧ backoff_total (trace st') = 15%Z).
Proof.
  split.
  - destruct (retry_policy
                (endpoint_throttling 4
                   (Return (sample_response "end_turn" [text_block "Hi"])))
                (sample_state 0)
                (get_tools (W:=nat) sample_registry sample_store).1
                [{| spec_name := "get_data"; spec_description := "Reads data";
                    spec_inputSchema := Ref 0 |};
                 {| spec_name := "broken"; spec_description := "Always fails";
                    spec_inputSchema := Ref 6 |}]
                4 4 5 (Return (sample_response "end_turn" [text_block "Hi"])))
      as (Hrun & _ & _ & Htotal).
    + reflexivity.
    + unfold max_retries. lia.
    + repeat (eapply throttled_S; [reflexivity|]). apply throttled_O.
    + reflexivity.
    + intros msg [=].
    + eexists. split; [exact Hrun|]. split; [reflexivity|]. exact (Htotal eq_refl).
  - destruct (retry_policy
                (endpoint_throttling 5
                   (Return (sample_response "end_turn" [text_block "Hi"])))
                (sample_state 0)
                (get_tools (W:=nat) sample_registry sample_store).1
                [{| spec_name := "get_data"; spec_description := "Reads data";
                    spec_inputSchema := Ref 0 |};
                 {| spec_name := "broken"; spec_description := "Always fails";
                    spec_inputSchema := Ref 6 |}]
                4 4 5 (Raise (ThrottlingException "Too many requests")))
      as (Hrun & _ & _ & Htotal).
    + reflexivity.
    + unfold max_retries. lia.
    + repeat (eapply throttled_S; [reflexivity|]). apply throttled_O.
    + reflexivity.
    + reflexivity.
    + eexists. split; [exact Hrun|]. split; [reflexivity|]. exact (Htotal eq_refl).
Defined.

Lemma history_append_only_witness :
  ∃ st' answers,
    session (λ r, r) (endpoint_text "Hello") 0 ["Hi"; "How are you?"] (sample_state tt)
    = Some (st', Return answers)
    ∧ length (messages st') = 4
    ∧ answers = [VStr "Hello"; VStr "Hello"].
Proof.
  destruct (session (λ r, r) (endpoint_text "Hello") 0 ["Hi"; "How are you?"]
              (sample_state tt)) as [[st' [answers|e]]|] eqn:Hrun.
  - exists st', answers. split; [reflexivity|].
    destruct (history_append_only (λ r : string, r) (endpoint_text "Hello"))
      as (_ & _ & Hsession).
    destruct (Hsession _ _ _ _ Hrun) as (Hlen & _). split; [exact Hlen|].
    vm_compute in Hrun. by injection Hrun as _ <-.
  - vm_compute in Hrun. discriminate Hrun.
  - vm_compute in Hrun. discriminate Hrun.
Defined.

(** * Further properties *)

(** ** Keys of the registry *)

Section DictKeys.
Context {V : Type}.
Implicit Types (d : list (string * V)) (k : string) (v : V).

Lemma dict_mem_keys k d :
  dict_mem k d = existsb (String.eqb k) (dict_keys d).
Proof.
  unfold dict_mem, dict_keys. induction d as [|[k0 v0] d IH]; simpl; [done|].
  by destruct (String.eqb k k0).
Qed.

Lemma dict_mem_elem_of k d : dict_mem k d = true ↔ k ∈ dict_keys d.
Proof.
  rewrite dict_mem_keys, existsb_exists. setoid_rewrite <- list_elem_of_In.
  split.
  - by intros (k' & Hin & ->%String.eqb_eq).
  - intros Hin. exists k. by rewrite String.eqb_refl.
Qed.

Lemma dict_keys_set k v d :
  dict_keys (dict_set k v d) =
  if dict_mem k d then dict_keys d else dict_keys d ++ [k].
Proof.
  unfold dict_keys, dict_mem. induction d as [|[k0 v0] d IH]; simpl; [done|].
  destruct (String.eqb k k0); simpl; [done|].
  rewrite IH. by destruct (dict_get k d).
Qed.
End DictKeys.

Lemma dict_mem_same_keys {V1 V2} k (d1 : list (string * V1)) (d2 : list (string * V2)) :
  dict_keys d1 = dict_keys d2 → dict_mem k d1 = dict_mem k d2.
Proof. intros Hk. by rewrite !dict_mem_keys, Hk. Qed.

Lemma replace_hyphens_idempotent name :
  replace_hyphens (replace_hyphens name) = replace_hyphens name.
Proof.
  induction name as [|c rest IH]; simpl; [done|]. rewrite IH. f_equal.
  destruct (Ascii.eqb_spec c "-") as [->|Hc]; [done|].
  by destruct (Ascii.eqb_spec c "-").
Qed.

(** X1: two names get the same key exactly when they have the same
    length and agree at every position, but for positions where each has
    a hyphen or an underscore; and the key of a key is the key itself, so
    that a tool registered under its own sanitized name replaces the
    original. *)
Theorem sanitized_key_collisions (n1 n2 : string) :
  (replace_hyphens n1 = replace_hyphens n2 ↔ same_up_to_hyphen n1 n2 = true)
  ∧ replace_hyphens (replace_hyphens n1) = replace_hyphens n1.
Proof.
  split; [|apply replace_hyphens_idempotent].
  revert n2. induction n1 as [|c1 r1 IH]; intros [|c2 r2]; simpl; try done.
  rewrite andb_true_iff, <- IH. unfold is_hyphen, is_underscore.
  split.
  - intros [= Hc Hr]. split; [|done].
    destruct (Ascii.eqb_spec c1 "-") as [->|N1], (Ascii.eqb_spec c2 "-") as [->|N2];
      simpl; subst; rewrite ?Ascii.eqb_refl, ?orb_true_r; try done.
  - intros [Hc ->]. f_equal.
    destruct (Ascii.eqb_spec c1 c2) as [->|Hne]; [done|]. simpl in Hc.
    destruct (Ascii.eqb_spec c1 "-") as [->|N1], (Ascii.eqb_spec c2 "-") as [->|N2];
      simpl in Hc; try done.
    + by destruct (Ascii.eqb_spec c2 "_") as [->|].
    + destruct (Ascii.eqb_spec c1 "_") as [->|]; [done|]. done.
    + destruct (Ascii.eqb_spec c1 "_") as [->|]; [|done].
      destruct (Ascii.eqb_spec c2 "_") as [->|]; done.
Qed.

Section RegistryInvariant.
Context {W R : Type}.
Implicit Types (reg : registry W R).

Lemma get_tools_entry_name (entry : string * tool W R) h h' spec :
  get_tools_entry entry h = (h', Return spec) →
  spec_name spec = entry.1 ∧ spec_description spec = description entry.2.
Proof.
  destruct entry as [key t]. unfold get_tools_entry.
  unfold bind at 1. destruct (contains _ _ h) as [h1 [wrapped|e]]; [|done].
  unfold bind at 1.
  match goal with |- context [match ?m h1 with _ => _ end] =>
    destruct (m h1) as [h2 [s|e]] end; [|done].
  unfold bind at 1. destruct (setdefault_json s "type" _ h2) as [h3 [[]|e]]; [|done].
  unfold bind at 1. destruct (setdefault_json s "properties" _ h3) as [h4 [[]|e]]; [|done].
  unfold bind at 1. destruct (setdefault_json s "required" _ h4) as [h5 [[]|e]]; [|done].
  by intros [= _ <-].
Qed.

Lemma get_tools_names reg h h' specs :
  get_tools reg h = (h', Return specs) →
  map (λ s, (spec_name s, spec_description s)) specs
  = map (λ e, (e.1, description e.2)) (_tools reg).
Proof.
  unfold get_tools. generalize (_tools reg). intros entries. revert h h' specs.
  induction entries as [|entry entries IH]; intros h h' specs; simpl.
  - by intros [= _ <-].
  - unfold bind at 1.
    destruct (get_tools_entry entry h) as [h1 [spec|e]] eqn:Hentry; [|done].
    unfold bind at 1.
    destruct (for_each get_tools_entry entries h1) as [h2 [rest|e]] eqn:Hrest; [|done].
    intros [= _ <-]. simpl.
    destruct (get_tools_entry_name entry h h1 spec Hentry) as [-> ->].
    by rewrite (IH h1 h2 rest Hrest).
Qed.

(** X2: whenever [get_tools] returns after a registration, it lists the
    keys in registration order, a key that was already there keeping its
    place and a new key coming last, and under the key just registered
    the description just given. *)
Theorem register_then_get_tools reg name func descr schema h h' specs :
  get_tools (register_tool reg name func descr schema) h = (h', Return specs) →
  map spec_name specs =
    (if dict_mem (replace_hyphens name) (_tools reg)
     then dict_keys (_tools reg)
     else dict_keys (_tools reg) ++ [replace_hyphens name])
  ∧ dict_get (replace_hyphens name)
      (map (λ s, (spec_name s, spec_description s)) specs) = Some descr.
Proof.
  intros Hrun. apply get_tools_names in Hrun.
  set (t := {| function := func; description := descr;
               input_schema := schema; original_name := name |}).
  split.
  - transitivity (map fst (map (λ s, (spec_name s, spec_description s)) specs)).
    { by rewrite map_map. }
    rewrite Hrun, map_map. simpl. apply (dict_keys_set (replace_hyphens name) t).
  - rewrite Hrun. simpl.
    assert (∀ k (d : list (string * tool W R)),
              dict_get k (map (λ e, (e.1, description e.2)) d)
              = description <$> dict_get k d) as Hmap.
    { intros k d. induction d as [|[k0 t0] d IH]; simpl; [done|].
      by destruct (String.eqb k k0). }
    by rewrite Hmap, dict_get_set_eq.
Qed.

Lemma register_tool_invariant reg name func descr schema :
  dict_keys (_tools reg) = dict_keys (_name_mapping reg) →
  NoDup (dict_keys (_tools reg)) →
  (∀ k t, dict_get k (_tools reg) = Some t →
     k = replace_hyphens (original_name t)
     ∧ dict_get k (_name_mapping reg) = Some (original_name t)) →
  let reg' := register_tool reg name func descr schema in
  dict_keys (_tools reg') = dict_keys (_name_mapping reg')
  ∧ NoDup (dict_keys (_tools reg'))
  ∧ (∀ k t, dict_get k (_tools reg') = Some t →
       k = replace_hyphens (original_name t)
       ∧ dict_get k (_name_mapping reg') = Some (original_name t)).
Proof.
  intros Hkeys Hnodup Hentries. simpl. split; [|split].
  - rewrite !dict_keys_set, (dict_mem_same_keys _ _ (_name_mapping reg) Hkeys).
    by rewrite Hkeys.
  - rewrite dict_keys_set.
    destruct (dict_mem (replace_hyphens name) (_tools reg)) eqn:Hmem; [done|].
    apply NoDup_app. split; [done|]. split; [|apply NoDup_singleton].
    intros k Hk ->%list_elem_of_singleton.
    apply dict_mem_elem_of in Hk. congruence.
  - intros k t. destruct (String.eqb_spec (replace_hyphens name) k) as [<-|Hne].
    + rewrite !dict_get_set_eq. by intros [= <-].
    + rewrite !dict_get_set_ne by done. apply Hentries.
Qed.

(** X3: in a registry built from the empty one by any sequence of
    registrations, [_tools] and [_name_mapping] have the same keys in the
    same order, no key occurs twice, and every key is the sanitized
    original name of its definition, which is also what [_name_mapping]
    gives for it. *)
Theorem registry_tables_agree (calls : list (string * executor W R * string * val)) :
  let reg := register_all empty_registry calls in
  dict_keys (_tools reg) = dict_keys (_name_mapping reg)
  ∧ NoDup (dict_keys (_tools reg))
  ∧ (∀ k t, dict_get k (_tools reg) = Some t →
       k = replace_hyphens (original_name t)
       ∧ dict_get k (_name_mapping reg) = Some (original_name t)).
Proof.
  unfold register_all.
  assert (∀ reg : registry W R,
            dict_keys (_tools reg) = dict_keys (_name_mapping reg)
            ∧ NoDup (dict_keys (_tools reg))
            ∧ (∀ k t, dict_get k (_tools reg) = Some t →
                 k = replace_hyphens (original_name t)
                 ∧ dict_get k (_name_mapping reg) = Some (original_name t)) →
            let reg' :=
              foldl (λ r '(name, func, descr, schema),
                       register_tool r name func descr schema) reg calls in
            dict_keys (_tools reg') = dict_keys (_name_mapping reg')
            ∧ NoDup (dict_keys (_tools reg'))
            ∧ (∀ k t, dict_get k (_tools reg') = Some t →
                 k = replace_hyphens (original_name t)
                 ∧ dict_get k (_name_mapping reg') = Some (original_name t)))
    as Hfold.
  { induction calls as [|[[[name func] descr] schema] calls IH]; intros reg Hinv;
      simpl; [done|].
    apply IH. destruct Hinv as (H1 & H2 & H3).
    by apply register_tool_invariant. }
  apply Hfold. simpl. split; [done|]. split; [constructor|]. by intros k t.
Qed.
End RegistryInvariant.

(** ** What [execute_tool] returns and what it lets through *)

Section ExecuteShape.
Context {W R : Type} (str_result : R → string).
Implicit Types (reg : registry W R) (payload : pyval) (w : W).

(** X4: whatever the request and whatever the executor does, a result
    that [execute_tool] returns is an envelope with the three keys in
    order: the [toolUseId] of the request, a content of exactly one text
    block, and the status ["success"] or ["error"]. *)
Theorem execute_tool_envelope reg payload w w' res :
  execute_tool str_result reg payload w = (w', Return res) →
  ∃ id text status,
    py_getitem payload "toolUseId" = Return id
    ∧ res = VDict [("toolUseId", id);
                   ("content", VList [VDict [("text", VStr text)]]);
                   ("status", VStr status)]
    ∧ (status = "success" ∨ status = "error").
Proof.
  unfold execute_tool, bind, lift_result.
  destruct (py_getitem payload "toolUseId") as [id|e]; [|done].
  destruct (py_getitem payload "name") as [[a| |]|e]; try done.
  destruct (negb (in_tools reg a)).
  { intros [= _ <-]. eexists id, _, "error". eauto. }
  unfold try_except, bind, lift_result.
  destruct (tools_getitem reg a) as [t|e].
  - destruct (py_getitem payload "input") as [input|e].
    + destruct (function t (original_name t) input w) as [w1 [r|e]];
        intros [= _ <-].
      * eexists id, _, "success". eauto.
      * eexists id, _, "error". eauto.
    + intros [= _ <-]. eexists id, _, "error". eauto.
  - intros [= _ <-]. eexists id, _, "error". eauto.
Qed.

End ExecuteShape.

Lemma execute_tool_envelope_witness :
  ∃ id text status,
    py_getitem (sample_request "broken") "toolUseId" = Return id
    ∧ _error_response (VStr "tooluse_1") "connection lost"
      = VDict [("toolUseId", id);
               ("content", VList [VDict [("text", VStr text)]]);
               ("status", VStr status)]
    ∧ (status = "success" ∨ status = "error").
Proof.
  apply (execute_tool_envelope (W:=unit) (λ r : string, r) sample_registry
           (sample_request "broken") tt tt).
  reflexivity.
Defined.


(** ** When [get_tools] returns *)

Section GetToolsTotal.
Context {W R : Type}.
Implicit Types (entry : string * tool W R) (reg : registry W R).

Lemma evolves_dict_back n0 h h' j d' :
  evolves n0 h h' → j < length h → h' !! j = Some (ODict d') →
  ∃ d, h !! j = Some (ODict d) ∧ dict_filled n0 h' d d'.
Proof.
  intros (_ & _ & Hlist & Hdict) Hj Hj'.
  destruct (lookup_lt_is_Some_2 h j Hj) as [[d|l] Ho].
  - destruct (Hdict j d Ho) as (d'' & Hd'' & Hfill).
    assert (d'' = d') as -> by congruence. eauto.
  - pose proof (Hlist j l Ho). congruence.
Qed.

Lemma spec_built_well_formed h0 h' entry spec :
  val_closed h0 (input_schema entry.2) →
  evolves (length h0) h0 h' →
  spec_built h0 h' entry spec →
  schema_well_formed h0 (input_schema entry.2).
Proof.
  intros Hv Hev (_ & _ & wrapped & j & dj' & Hc & Hwrap & Hget & Hj & Hdj & _).
  destruct (evolves_dict_back _ _ _ _ _ Hev Hj Hdj) as (dj & Hj0 & _).
  destruct wrapped.
  - rewrite Hwrap in Hget.
    destruct (getitem_Return _ _ _ _ Hget) as (a & d' & Ha & Hd' & Hk).
    rewrite Ha in *. simpl in Hv.
    destruct (evolves_dict_back _ _ _ _ _ Hev Hv Hd') as (d & Hd & Hfill).
    exists a, d. split; [done|]. split; [done|].
    specialize (Hfill "json"). destruct (dict_get "json" d) as [x|] eqn:Hx.
    + assert (x = Ref j) as -> by congruence. eauto.
    + revert Hc. simpl. unfold bind. rewrite (deref_Some a h0 _ Hd).
      unfold ret, dict_mem. by rewrite Hx.
  - destruct Hwrap as (w & Hs & _ & Hw). rewrite Hs in Hget.
    destruct (getitem_Return _ _ _ _ Hget) as (a & d & [= <-] & Hd & Hk).
    rewrite Hw in Hd. injection Hd as <-. simpl in Hk.
    injection Hk as Hschema. rewrite Hschema in *.
    exists j, dj. split; [done|]. split; [done|].
    revert Hc. simpl. unfold bind. rewrite (deref_Some j h0 _ Hj0).
    unfold ret, dict_mem. by destruct (dict_get "json" dj).
Qed.

(** X6: on a store without dangling references, [get_tools] returns if
    and only if every stored schema is a dictionary whose entry [json],
    when it has one, is a dictionary; with any other stored schema it
    raises and produces no list. *)
Theorem get_tools_returns_iff reg (h : list obj) :
  closed h → registry_closed h reg →
  ((∃ h' specs, get_tools reg h = (h', Return specs))
   ↔ Forall (λ e, schema_well_formed h (input_schema e.2)) (_tools reg)).
Proof.
  intros Hclosed Hreg. split.
  - intros (h' & specs & Hrun).
    destruct (get_tools_loop h _ h h' _ Hclosed Hreg (evolves_refl _ _) Hrun)
      as [Hev Hspecs].
    specialize (Hspecs specs eq_refl). unfold registry_closed in Hreg.
    clear Hrun. revert Hreg.
    induction Hspecs as [|entry spec entries specs Hspec _ IH]; intros Hreg;
      [constructor|].
    inversion Hreg as [|? ? Hv Hrest]; subst.
    constructor; [by eapply spec_built_well_formed|by apply IH].
  - intros Hwf. by apply (get_tools_loop_returns h _ h Hwf), evolves_refl.
Qed.
End GetToolsTotal.

Lemma get_tools_returns_iff_witness :
  (∃ h' specs, get_tools (W:=unit) sample_registry sample_store = (h', Return specs))
  ↔ Forall (λ e, schema_well_formed sample_store (input_schema e.2))
      (_tools (W:=unit) sample_registry).
Proof.
  apply (get_tools_returns_iff (W:=unit) sample_registry sample_store
           sample_store_closed sample_registry_closed).
Defined.

(** ** Edge cases of response handling *)

Lemma for_each_app {S A B} (body : A → M S B) xs ys s :
  for_each body (xs ++ ys) s =
  match for_each body xs s with
  | (s1, Return bs) =>
      match for_each body ys s1 with
      | (s2, Return cs) => (s2, Return (bs ++ cs))
      | (s2, Raise e) => (s2, Raise e)
      end
  | (s1, Raise e) => (s1, Raise e)
  end.
Proof.
  revert s. induction xs as [|x xs IH]; intros s; simpl.
  - unfold ret. by destruct (for_each body ys s) as [s2 [cs|e]].
  - unfold bind, ret. destruct (body x s) as [s1 [b|e]]; [|done].
    rewrite IH. destruct (for_each body xs s1) as [s2 [bs|e]]; [|done].
    by destruct (for_each body ys s2) as [s3 [cs|e]].
Qed.

Section ResponseEdges.
Context {W R : Type} (str_result : R → string).
Context (converse : request → store → M W pyval).
Implicit Types (st : state W R) (response msg sr : pyval).

(** X7: a response whose stop condition is none of [end_turn],
    [stop_sequence] and [tool_use] is answered by the empty string; the
    model's message is appended all the same, and no tool runs. *)
Theorem unknown_stop_reason fuel response msg sr st :
  output_message response = Return msg →
  py_getitem response "stopReason" = Return sr →
  py_eq_str sr "end_turn" = false →
  py_eq_str sr "stop_sequence" = false →
  py_eq_str sr "tool_use" = false →
  _handle_response str_result converse fuel response st =
  Some (set_messages (messages st ++ [msg]) st, Return (VStr "")).
Proof.
  intros Hmsg Hsr H1 H2 H3. unfold _handle_response, _handle_response_with.
  rewrite (handle_response_prefix response msg sr st Hmsg Hsr).
  by rewrite H1, H2, H3.
Qed.

(** X8: a response without [output] or without [message] under it makes
    response handling raise with the history unchanged; a response
    without [stopReason] makes it raise after the model's message has
    been appended. *)
Theorem malformed_response fuel response st :
  (∀ e, output_message response = Raise e →
     _handle_response str_result converse fuel response st = Some (st, Raise e))
  ∧ (∀ msg e, output_message response = Return msg →
       py_getitem response "stopReason" = Raise e →
       _handle_response str_result converse fuel response st =
       Some (set_messages (messages st ++ [msg]) st, Raise e)).
Proof.
  split.
  - intros e He. unfold _handle_response, _handle_response_with.
    unfold bind, lift_result. by rewrite He.
  - intros msg e Hmsg He. unfold _handle_response, _handle_response_with.
    unfold bind, lift_result, messages_append, modify. by rewrite Hmsg, He.
Qed.

(** X9: in a terminal response, a first content block that is not a
    dictionary makes response handling raise a [TypeError], which the
    handler for [KeyError] and [IndexError] does not catch; the model's
    message is in the history by then. *)
Theorem terminal_response_type_error fuel response msg sr block rest st :
  output_message response = Return msg →
  py_getitem response "stopReason" = Return sr →
  py_eq_str sr "end_turn" || py_eq_str sr "stop_sequence" = true →
  py_getitem msg "content" = Return (VList (block :: rest)) →
  (∀ d, block ≠ VDict d) →
  ∃ m, _handle_response str_result converse fuel response st =
       Some (set_messages (messages st ++ [msg]) st, Raise (TypeError m)).
Proof.
  intros Hmsg Hsr Hstop Hcontent Hblock.
  unfold _handle_response, _handle_response_with.
  rewrite (handle_response_prefix response msg sr st Hmsg Hsr), Hstop.
  unfold try_except, first_block_text, bind, lift_result.
  rewrite Hmsg, Hcontent. simpl.
  destruct block as [[| | |s]|l|d]; simpl; eauto.
  by destruct (Hblock d).
Qed.

Lemma handle_content_item_error block e st :
  tool_block_error block = Some e →
  handle_content_item str_result block st = (st, Raise e).
Proof.
  destruct block as [a|l|d]; simpl; try done.
  unfold handle_content_item, bind, lift_result. simpl. unfold dict_mem.
  destruct (dict_get "toolUse" d) as [tool_use|]; [|done].
  destruct (py_getitem tool_use "toolUseId") as [id|e1]; [|by intros [= <-]].
  destruct (py_getitem tool_use "name") as [name|e1]; [|by intros [= <-]].
  destruct (py_getitem tool_use "input") as [input|e1]; [done|by intros [= <-]].
Qed.

(** X10: when reading [toolUseId], [name] or [input] of a tool-use block
    raises (a missing key gives a [KeyError]), the exception leaves
    response handling: the tools of the blocks before
    it have run, in order, the model's message is in the history, and
    [invoke] is not called, so that no tool result follows that message. *)
Theorem malformed_tool_use_block fuel response msg sr prefix bad rest e st :
  output_message response = Return msg →
  py_getitem response "stopReason" = Return sr →
  py_eq_str sr "tool_use" = true →
  py_getitem msg "content" = Return (VList (prefix ++ bad :: rest)) →
  Forall content_block_ok prefix →
  tool_block_error bad = Some e →
  ∃ w' results,
    for_each (execute_tool str_result (tools st)) (tool_requests prefix) (world st)
    = (w', Return results)
    ∧ _handle_response str_result converse fuel response st =
      Some (set_trace (trace st ++ map EvExecuteTool (tool_requests prefix))
              (set_world w' (set_messages (messages st ++ [msg]) st)),
            Raise e).
Proof.
  intros Hmsg Hsr Hstop Hcontent Hprefix Hbad.
  destruct (handle_content_items str_result prefix
              (set_messages (messages st ++ [msg]) st) Hprefix)
    as (w' & results & appended & Hrun & _ & Hloop & _).
  exists w', results. split; [exact Hrun|].
  unfold _handle_response, _handle_response_with.
  rewrite (handle_response_prefix response msg sr st Hmsg Hsr).
  assert (sr = VStr "tool_use") as ->.
  { destruct sr as [[| | |s]| |]; try done. simpl in Hstop.
    by apply String.eqb_eq in Hstop as ->. }
  simpl. unfold collect_tool_response.
  unfold bind at 1. unfold lift_result at 1. rewrite Hmsg.
  unfold bind at 1. unfold lift_result at 1. rewrite Hcontent.
  unfold bind at 1. unfold lift_result at 1. simpl py_iter. cbv iota.
  unfold bind at 1. rewrite for_each_app, Hloop. simpl for_each.
  unfold bind at 1. by rewrite (handle_content_item_error bad e _ Hbad).
Qed.

(** X11: a [tool_use] response in which no block has the key [toolUse]
    runs no tool and calls [invoke] with an empty list, so that the next
    user message has no content. *)
Theorem tool_use_without_blocks fuel response msg sr blocks st :
  output_message response = Return msg →
  py_getitem response "stopReason" = Return sr →
  py_eq_str sr "tool_use" = true →
  py_getitem msg "content" = Return (VList blocks) →
  Forall (λ block, ∃ d, block = VDict d ∧ dict_get "toolUse" d = None) blocks →
  _handle_response str_result converse (S fuel) response st =
  invoke str_result converse fuel (VList [])
    (set_messages (messages st ++ [msg]) st).
Proof.
  intros Hmsg Hsr Hstop Hcontent Hblocks.
  assert (Forall content_block_ok blocks ∧ tool_requests blocks = []) as [Hok Hreqs].
  { clear Hcontent. induction Hblocks as [|block blocks (d & -> & Hd) _ [IH1 IH2]];
      [by split|].
    split.
    - constructor; [|done]. exists d. split; [done|]. by rewrite Hd.
    - simpl. by rewrite Hd. }
  destruct (handle_content_items str_result blocks
              (set_messages (messages st ++ [msg]) st) Hok)
    as (w' & results & appended & Hrun & _ & Hloop & Hcat).
  rewrite Hreqs in *. simpl in Hrun. injection Hrun as <- <-.
  unfold _handle_response, _handle_response_with.
  rewrite (handle_response_prefix response msg sr st Hmsg Hsr).
  assert (sr = VStr "tool_use") as ->.
  { destruct sr as [[| | |s]| |]; try done. simpl in Hstop.
    by apply String.eqb_eq in Hstop as ->. }
  simpl. unfold collect_tool_response.
  unfold bind at 1. unfold lift_result at 1. rewrite Hmsg.
  unfold bind at 1. unfold lift_result at 1. rewrite Hcontent.
  unfold bind at 1. unfold lift_result at 1. simpl py_iter. cbv iota.
  unfold bind at 1. rewrite Hloop. unfold ret. rewrite Hcat. simpl.
  f_equal. destruct st; unfold set_trace, set_world, set_messages; simpl.
  by rewrite app_nil_r.
Qed.
End ResponseEdges.

(** ** The cost of a model call *)

Section RetryBound.
Context {W R : Type}.
Context (converse : request → store → M W pyval).
Implicit Types (st : state W R) (payload : request).


End RetryBound.


(** ** Messages and calls of [invoke] *)

Section Balance.
Context {W R : Type} (str_result : R → string).
Context (converse : request → store → M W pyval).
Implicit Types (st : state W R) (response msg content : pyval).

Lemma quiet_ret {A} (a : A) : quiet (W:=W) (R:=R) (ret a).
Proof. by intros st st' r [= <- _]. Qed.

Lemma quiet_raise {A} e : quiet (W:=W) (R:=R) (A:=A) (raise e).
Proof. by intros st st' r [= <- _]. Qed.

Lemma quiet_lift_result {A} (x : result A) : quiet (W:=W) (R:=R) (lift_result x).
Proof. by intros st st' r [= <- _]. Qed.

Lemma quiet_gets {A} (f : state W R → A) : quiet (gets f).
Proof. by intros st st' r [= <- _]. Qed.

Lemma quiet_with_heap {A} (m : M store A) : quiet (W:=W) (R:=R) (with_heap m).
Proof.
  intros st st' r. unfold with_heap. destruct (m (heap st)) as [h x].
  by intros [= <- _].
Qed.

Lemma quiet_with_world {A} (m : M W A) : quiet (R:=R) (with_world m).
Proof.
  intros st st' r. unfold with_world. destruct (m (world st)) as [w x].
  by intros [= <- _].
Qed.

Lemma invoke_calls_app t1 t2 :
  invoke_calls (t1 ++ t2) = invoke_calls t1 + invoke_calls t2.
Proof.
  induction t1 as [|e t1 IH]; simpl; [done|]. destruct e; simpl; by rewrite IH.
Qed.

Lemma quiet_log e :
  (∀ d, e ≠ EvAsyncSleep d) → quiet (W:=W) (R:=R) (log e).
Proof.
  intros He st st' r [= <- _]. split; [done|]. simpl.
  rewrite invoke_calls_app. destruct e; simpl; try lia. by destruct (He seconds).
Qed.

Lemma quiet_bind {A B} (m : M (state W R) A) (k : A → M (state W R) B) :
  quiet m → (∀ a, quiet (k a)) → quiet (bind m k).
Proof.
  intros Hm Hk st st' r. unfold bind.
  destruct (m st) as [st1 [a|e]] eqn:Hrun; destruct (Hm _ _ _ Hrun) as [Hms Hcalls].
  - intros Hrest. destruct (Hk a _ _ _ Hrest) as [Hms' Hcalls']. split; congruence.
  - by intros [= <- _].
Qed.

Lemma quiet_try_except {A} (m : M (state W R) A) handler :
  quiet m → (∀ e, quiet (handler e)) → quiet (try_except m handler).
Proof.
  intros Hm Hh st st' r. unfold try_except.
  destruct (m st) as [st1 [a|e]] eqn:Hrun; destruct (Hm _ _ _ Hrun) as [Hms Hcalls].
  - by intros [= <- _].
  - intros Hrest. destruct (Hh e _ _ _ Hrest) as [Hms' Hcalls']. split; congruence.
Qed.

Lemma quiet_for_each {A B} (body : A → M (state W R) B) xs :
  (∀ x, quiet (body x)) → quiet (for_each body xs).
Proof.
  intros Hbody. induction xs as [|x xs IH]; simpl; [apply quiet_ret|].
  apply quiet_bind; [done|]. intros y.
  apply quiet_bind; [done|]. intros ys. apply quiet_ret.
Qed.

Lemma converse_attempts_quiet attempts delay payload :
  quiet (W:=W) (R:=R) (converse_attempts converse attempts delay payload).
Proof.
  revert delay. induction attempts as [|attempt rest IH]; intros delay; simpl.
  - apply quiet_ret.
  - apply quiet_try_except.
    + apply quiet_bind; [by apply quiet_log|]. intros _.
      apply quiet_bind; [apply quiet_gets|]. intros h. apply quiet_with_world.
    + intros e. destruct e; try exact (quiet_raise _).
      destruct (attempt <? _); [|exact (quiet_raise _)].
      apply quiet_bind; [by apply quiet_log|]. intros _. apply IH.
Qed.

Lemma get_converse_response_quiet :
  quiet (_get_converse_response (R:=R) converse).
Proof.
  unfold _get_converse_response.
  repeat (apply quiet_bind; [apply quiet_gets|]; intros ?).
  apply quiet_bind; [apply quiet_with_heap|]. intros specs.
  apply converse_attempts_quiet.
Qed.

Lemma collect_tool_response_quiet response :
  quiet (collect_tool_response (W:=W) str_result response).
Proof.
  unfold collect_tool_response.
  repeat (apply quiet_bind; [apply quiet_lift_result|]; intros ?).
  apply quiet_bind; [|intros ?; apply quiet_ret].
  apply quiet_for_each. intros content_item. unfold handle_content_item.
  apply quiet_bind; [apply quiet_lift_result|]. intros [|]; [|apply quiet_ret].
  repeat (apply quiet_bind; [apply quiet_lift_result|]; intros ?).
  apply quiet_bind; [apply quiet_gets|]. intros reg.
  apply quiet_bind; [by apply quiet_log|]. intros _.
  apply quiet_bind; [apply quiet_with_world|]. intros ?. apply quiet_ret.
Qed.

Lemma terminal_answer_quiet response :
  quiet (W:=W) (R:=R)
    (try_except (first_block_text response)
       (λ e, match e with
             | KeyError _ | IndexError _ => ret (VStr "")
             | _ => raise e
             end)).
Proof.
  apply quiet_try_except.
  - unfold first_block_text.
    repeat (apply quiet_bind; [apply quiet_lift_result|]; intros ?).
    apply quiet_lift_result.
  - intros e. destruct e; (exact (quiet_ret _) || exact (quiet_raise _)).
Qed.

(** The state in which [invoke] calls the model. *)
Lemma invoke_unfold fuel content st :
  invoke str_result converse fuel content st =
  match _get_converse_response converse
          (set_trace (trace st ++ [EvAsyncSleep (1 # 2)])
             (set_messages (messages st ++ [user_message content]) st)) with
  | (st1, Raise e) => Some (st1, Raise e)
  | (st1, Return response) =>
      _handle_response str_result converse fuel response st1
  end.
Proof. by destruct fuel. Qed.

(** X13: when the model call of [invoke] raises, because a stored schema
    is malformed, because the retries are exhausted or because the
    endpoint fails otherwise, [invoke] raises the same exception and the
    history has gained the user message and nothing else: it is not
    taken back. *)
Theorem invoke_model_call_fails fuel content st st' e :
  _get_converse_response converse
    (set_trace (trace st ++ [EvAsyncSleep (1 # 2)])
       (set_messages (messages st ++ [user_message content]) st))
  = (st', Raise e) →
  invoke str_result converse fuel content st = Some (st', Raise e)
  ∧ messages st' = messages st ++ [user_message content].
Proof.
  intros Hcall. rewrite invoke_unfold, Hcall. split; [done|].
  by destruct (get_converse_response_quiet _ _ _ Hcall) as [-> _].
Qed.

Lemma handle_response_balance fuel :
  (∀ content s s' answer,
     invoke str_result converse fuel content s = Some (s', Return answer) →
     length (messages s') + 2 * invoke_calls (trace s)
     = length (messages s) + 2 * invoke_calls (trace s')) →
  ∀ response st st' answer,
    _handle_response str_result converse (S fuel) response st
    = Some (st', Return answer) →
    length (messages st') + 2 * invoke_calls (trace st)
    = S (length (messages st)) + 2 * invoke_calls (trace st').
Proof.
  intros Hrec response st st' answer.
  unfold _handle_response, _handle_response_with.
  destruct ((message <- lift_result (output_message response) ;;
             messages_append message ;;;
             lift_result (py_getitem response "stopReason")) st)
    as [st1 x] eqn:Hprefix.
  apply handle_response_prefix_cases in Hprefix.
  destruct (output_message response) as [msg|e];
    destruct Hprefix as [-> ->]; [|done].
  destruct (py_getitem response "stopReason") as [sr|e]; [|done].
  destruct (py_eq_str sr "end_turn" || py_eq_str sr "stop_sequence").
  { destruct (try_except _ _ _) as [s x] eqn:Hrun.
    destruct (terminal_answer_quiet response _ _ _ Hrun) as [Hms Hcalls].
    intros [= <- _]. rewrite Hms, Hcalls. simpl. rewrite length_app. simpl. lia. }
  destruct (py_eq_str sr "tool_use").
  - destruct (collect_tool_response _ _ _) as [st2 [tool_response|e]] eqn:Hrun;
      [|done].
    destruct (collect_tool_response_quiet response _ _ _ Hrun) as [Hms Hcalls].
    intros Hinvoke. apply Hrec in Hinvoke. rewrite Hms, Hcalls in Hinvoke.
    simpl in Hinvoke. rewrite length_app in Hinvoke. simpl in Hinvoke. lia.
  - intros [= <- _]. simpl. rewrite length_app. simpl. lia.
Qed.

Lemma invoke_balance fuel :
  ∀ content st st' answer,
    invoke str_result converse fuel content st = Some (st', Return answer) →
    length (messages st') + 2 * invoke_calls (trace st)
    = length (messages st) + 2 * invoke_calls (trace st')
    ∧ invoke_calls (trace st) < invoke_calls (trace st').
Proof.
  assert (∀ fuel content st st' answer,
            (∀ response s s' a,
               _handle_response str_result converse fuel response s
               = Some (s', Return a) →
               length (messages s') + 2 * invoke_calls (trace s)
               = S (length (messages s)) + 2 * invoke_calls (trace s')) →
            invoke str_result converse fuel content st = Some (st', Return answer) →
            length (messages st') + 2 * invoke_calls (trace st)
            = length (messages st) + 2 * invoke_calls (trace st')
            ∧ invoke_calls (trace st) < invoke_calls (trace st')) as Hstep.
  { intros f content st st' answer Hhandle Hinvoke.
    destruct (invoke_history str_result converse _ _ _ _ _ Hinvoke)
      as (more & _ & Hmore & _).
    apply (f_equal length) in Hmore. simpl in Hmore.
    rewrite !length_app in Hmore. simpl in Hmore.
    revert Hinvoke. rewrite invoke_unfold.
    destruct (_get_converse_response converse _) as [st1 [response|e]] eqn:Hcall;
      [|done].
    destruct (get_converse_response_quiet _ _ _ Hcall) as [Hms Hcalls].
    intros Hrun. apply Hhandle in Hrun. rewrite Hms, Hcalls in Hrun.
    simpl in Hrun. rewrite length_app, invoke_calls_app in Hrun.
    simpl in Hrun. lia. }
  induction fuel as [|fuel IH]; intros content st st' answer.
  - apply Hstep. intros response s s' a Hrun.
    destruct (handle_response_without_invoke str_result response s s' a Hrun)
      as [[msg Hms] _].
    assert (invoke_calls (trace s') = invoke_calls (trace s)) as ->; [|
      rewrite Hms, length_app; simpl; lia].
    revert Hrun. unfold _handle_response, _handle_response_with.
    destruct ((message <- lift_result (output_message response) ;;
               messages_append message ;;;
               lift_result (py_getitem response "stopReason")) s)
      as [st1 x] eqn:Hprefix.
    apply handle_response_prefix_cases in Hprefix.
    destruct (output_message response) as [m|e];
      destruct Hprefix as [-> ->]; [|done].
    destruct (py_getitem response "stopReason") as [sr|e]; [|done].
    destruct (py_eq_str sr "end_turn" || py_eq_str sr "stop_sequence").
    { destruct (try_except _ _ _) as [s1 x] eqn:Hrun.
      destruct (terminal_answer_quiet response _ _ _ Hrun) as [_ Hcalls].
      by intros [= <- _]. }
    destruct (py_eq_str sr "tool_use").
    + by destruct (collect_tool_response _ _ _) as [st2 [tool_response|e]].
    + by intros [= <- _].
  - apply Hstep. apply handle_response_balance.
    intros c s s' a Hrun. by apply IH in Hrun as [? _].
Qed.

(** X14: when [invoke] returns an answer, whatever the number of tool
    round trips, the history has grown by exactly two messages for every
    call of [invoke] made on the way, the nested ones included, and at
    least one such call was made. *)
Theorem invoke_two_messages_per_call fuel content st st' answer :
  invoke str_result converse fuel content st = Some (st', Return answer) →
  length (messages st') + 2 * invoke_calls (trace st)
  = length (messages st) + 2 * invoke_calls (trace st')
  ∧ invoke_calls (trace st) < invoke_calls (trace st').
Proof. apply invoke_balance. Qed.
End Balance.

(** ** The client and the registration loop of [main] *)

Lemma schema_well_formed_app h ext v :
  schema_well_formed h v → schema_well_formed (h ++ ext) v.
Proof.
  intros (a & d & -> & Ha & Hjson).
  assert (∀ i o, h !! i = Some o → (h ++ ext) !! i = Some o) as Hkeep.
  { intros i o Hi. rewrite lookup_app_l; [done|]. by eapply lookup_lt_Some. }
  exists a, d. split; [done|]. split; [by apply Hkeep|].
  destruct (dict_get "json" d) as [vj|]; [|done].
  destruct Hjson as (j & dj & -> & Hj). exists j, dj. split; [done|]. by apply Hkeep.
Qed.

Lemma dict_set_Forall {V} (P : string * V → Prop) k v (d : list (string * V)) :
  (∀ k', P (k', v)) → Forall P d → Forall P (dict_set k v d).
Proof.
  intros Hv. induction 1 as [|[k0 v0] d H0 Hd IH]; simpl.
  - by repeat constructor.
  - destruct (String.eqb k k0); by constructor.
Qed.

Section ClientFacts.
Context {W R : Type} (str_result : R → string).
Implicit Types (self : mcp_client W R) (reg : registry W R).

Lemma register_discovered_run self discovered :
  ∀ reg h,
    Forall (λ t, ∃ a d, mcp_inputSchema t = Ref a ∧ h !! a = Some (ODict d))
      discovered →
    Forall (λ e, schema_well_formed h (input_schema e.2)
                 ∧ function e.2 = call_tool self) (_tools reg) →
    ∃ ext reg',
      register_discovered self discovered reg h = (h ++ ext, Return reg')
      ∧ Forall (λ e, schema_well_formed (h ++ ext) (input_schema e.2)
                     ∧ function e.2 = call_tool self) (_tools reg')
      ∧ (∀ k, k ∈ dict_keys (_tools reg) → k ∈ dict_keys (_tools reg'))
      ∧ (∀ t, t ∈ discovered →
           replace_hyphens (mcp_name t) ∈ dict_keys (_tools reg')).
Proof.
  induction discovered as [|tool rest IH]; intros reg h Hdisc Hreg; simpl.
  - exists [], reg. rewrite app_nil_r. repeat split; try done.
    intros t Ht. by apply elem_of_nil in Ht.
  - inversion Hdisc as [|? ? (a & d & Hschema & Ha) Hrest]; subst.
    unfold bind at 1, alloc at 1.
    set (wrapper := ODict [("json", mcp_inputSchema tool)]).
    set (reg1 := register_tool reg (mcp_name tool) (call_tool self)
                   (mcp_description tool) (Ref (length h))).
    assert (∀ i o, h !! i = Some o → (h ++ [wrapper]) !! i = Some o) as Hkeep.
    { intros i o Hi. rewrite lookup_app_l; [done|]. by eapply lookup_lt_Some. }
    destruct (IH reg1 (h ++ [wrapper])) as (ext & reg' & Hrun & Hwf & Hkeys & Hin).
    { eapply Forall_impl; [exact Hrest|]. simpl.
      intros t (a' & d' & -> & Ha'). eauto. }
    { subst reg1. simpl. apply dict_set_Forall.
      - intros k'. simpl. split; [|done].
        exists (length h), [("json", mcp_inputSchema tool)].
        split; [done|]. split; [by apply list_lookup_middle|].
        simpl. rewrite Hschema. eauto.
      - eapply Forall_impl; [exact Hreg|]. simpl.
        intros e [Hwf Hfun]. split; [|done]. by apply schema_well_formed_app. }
    exists ([wrapper] ++ ext), reg'. rewrite app_assoc.
    split; [exact Hrun|]. split; [exact Hwf|].
    assert (∀ k, k ∈ dict_keys (_tools reg) → k ∈ dict_keys (_tools reg1)) as Hstep.
    { intros k Hk. subst reg1. simpl. rewrite dict_keys_set.
      destruct (dict_mem _ _); [done|]. apply elem_of_app. by left. }
    split; [by auto|].
    intros t [->|Ht]%elem_of_cons; [|by apply Hin].
    apply Hkeys. subst reg1. simpl. rewrite dict_keys_set.
    destruct (dict_mem _ _) eqn:Hmem.
    + by apply dict_mem_elem_of.
    + apply elem_of_app. right. by apply list_elem_of_singleton.
Qed.

(** X15: after the registration loop of [main] on a fresh registry, for
    listed tools whose [inputSchema] is a dictionary, [get_tools] returns;
    its list has one spec per key of the registry, in order; the
    sanitized name of every listed tool is among them; and every
    definition has the client's [call_tool] as executor. *)
Theorem main_registration_lists_tools self discovered (h : list obj) :
  Forall (λ t, ∃ a d, mcp_inputSchema t = Ref a ∧ h !! a = Some (ODict d))
    discovered →
  ∃ h1 reg h2 specs,
    register_discovered self discovered empty_registry h = (h1, Return reg)
    ∧ get_tools reg h1 = (h2, Return specs)
    ∧ map spec_name specs = dict_keys (_tools reg)
    ∧ (∀ t, t ∈ discovered → replace_hyphens (mcp_name t) ∈ map spec_name specs)
    ∧ Forall (λ e, function e.2 = call_tool self) (_tools reg).
Proof.
  intros Hdisc.
  destruct (register_discovered_run self discovered empty_registry h Hdisc)
    as (ext & reg & Hrun & Hwf & _ & Hin); [constructor|].
  destruct (get_tools_loop_returns (h ++ ext) (_tools reg) (h ++ ext))
    as (h2 & specs & Hspecs).
  { eapply Forall_impl; [exact Hwf|]. by intros e [? _]. }
  { apply evolves_refl. }
  assert (map spec_name specs = dict_keys (_tools reg)) as Hnames.
  { pose proof (get_tools_names reg _ _ _ Hspecs) as Hpairs.
    apply (f_equal (map fst)) in Hpairs. by rewrite !map_map in Hpairs. }
  exists (h ++ ext), reg, h2, specs. repeat split; try done.
  - intros t Ht. rewrite Hnames. by apply Hin.
  - eapply Forall_impl; [exact Hwf|]. by intros e [_ ?].
Qed.

(** X16: a tool registered with the client's [call_tool] and executed
    through the registry reaches the session with the original name of
    the tool; while the client is not connected, the request is answered
    by the error envelope ["Error executing tool: Not connected to
    server"] and the outside is not touched. *)
Theorem execute_through_client self reg payload id input s t (w : W) :
  py_getitem payload "toolUseId" = Return id →
  py_getitem payload "name" = Return (VStr s) →
  py_getitem payload "input" = Return input →
  dict_get s (_tools reg) = Some t →
  function t = call_tool self →
  execute_tool str_result reg payload w =
  match mcp_session self with
  | None => (w, Return (_error_response id "Not connected to server"))
  | Some session =>
      match session_call_tool session (original_name t) input w with
      | (w', Return r) => (w', Return (success_response id (str_result r)))
      | (w', Raise e) => (w', Return (_error_response id (str_exn e)))
      end
  end.
Proof.
  intros Hid Hname Hinput Ht Hfun.
  rewrite (execute_tool_known str_result reg payload id s t w Hid Hname Ht).
  rewrite Hinput, Hfun. unfold call_tool. by destruct (mcp_session self).
Qed.
End ClientFacts.

(** ** Concrete instances for the further properties *)

Lemma register_then_get_tools_witness :
  ∃ h' specs,
    get_tools (W:=unit)
      (register_tool sample_registry "get_data" tool_second "Replaced" (Ref 1))
      sample_store = (h', Return specs)
    ∧ map spec_name specs = ["get_data"; "broken"]
    ∧ dict_get "get_data" (map (λ s, (spec_name s, spec_description s)) specs)
      = Some "Replaced".
Proof.
  destruct (get_tools (W:=unit)
              (register_tool sample_registry "get_data" tool_second "Replaced" (Ref 1))
              sample_store) as [h' [specs|e]] eqn:Hrun.
  - exists h', specs. split; [reflexivity|].
    exact (register_then_get_tools sample_registry "get_data" tool_second
             "Replaced" (Ref 1) sample_store h' specs Hrun).
  - vm_compute in Hrun. discriminate Hrun.
Defined.

Lemma unknown_stop_reason_witness :
  _handle_response (λ r, r) (endpoint_text "unused") 0
    (sample_response "max_tokens" [text_block "Cut off"]) (sample_state tt) =
  Some (set_messages [assistant_message [text_block "Cut off"]] (sample_state tt),
        Return (VStr "")).
Proof.
  by apply (unknown_stop_reason (λ r : string, r) (endpoint_text "unused") 0
              (sample_response "max_tokens" [text_block "Cut off"])
              (assistant_message [text_block "Cut off"]) (VStr "max_tokens")
              (sample_state tt)).
Defined.

Lemma malformed_response_witness :
  _handle_response (λ r, r) (endpoint_text "unused") 0
    (VDict [("stopReason", VStr "end_turn")]) (sample_state tt)
  = Some (sample_state tt, Raise (KeyError (AStr "output")))
  ∧ _handle_response (λ r, r) (endpoint_text "unused") 0
      (VDict [("output", VDict [("message", assistant_message [])])])
      (sample_state tt)
    = Some (set_messages [assistant_message []] (sample_state tt),
            Raise (KeyError (AStr "stopReason"))).
Proof.
  split.
  - by apply (malformed_response (λ r : string, r) (endpoint_text "unused") 0
                (VDict [("stopReason", VStr "end_turn")]) (sample_state tt)).
  - destruct (malformed_response (λ r : string, r) (endpoint_text "unused") 0
                (VDict [("output", VDict [("message", assistant_message [])])])
                (sample_state tt)) as [_ Hstop].
    by apply (Hstop (assistant_message [])).
Defined.

Lemma terminal_response_type_error_witness :
  ∃ m, _handle_response (λ r, r) (endpoint_text "unused") 0
         (sample_response "end_turn" [VStr "Hello"]) (sample_state tt) =
       Some (set_messages [assistant_message [VStr "Hello"]] (sample_state tt),
             Raise (TypeError m)).
Proof.
  by apply (terminal_response_type_error (λ r : string, r) (endpoint_text "unused") 0
              (sample_response "end_turn" [VStr "Hello"])
              (assistant_message [VStr "Hello"]) (VStr "end_turn")
              (VStr "Hello") [] (sample_state tt)).
Defined.

Lemma malformed_tool_use_block_witness :
  ∃ w' results,
    for_each (execute_tool (λ r, r) sample_registry)
      [tool_request "tooluse_1" "get_data"] tt = (w', Return results)
    ∧ _handle_response (λ r, r) (endpoint_text "unused") 1
        (sample_response "tool_use"
           [tool_use_block "tooluse_1" "get_data";
            VDict [("toolUse", VDict [("toolUseId", VStr "tooluse_2");
                                      ("name", VStr "broken")])]])
        (sample_state tt) =
      Some (set_trace [EvExecuteTool (tool_request "tooluse_1" "get_data")]
              (set_world w'
                 (set_messages
                    [assistant_message
                       [tool_use_block "tooluse_1" "get_data";
                        VDict [("toolUse", VDict [("toolUseId", VStr "tooluse_2");
                                                  ("name", VStr "broken")])]]]
                    (sample_state tt))),
            Raise (KeyError (AStr "input"))).
Proof.
  apply (malformed_tool_use_block (λ r : string, r) (endpoint_text "unused") 1
           (sample_response "tool_use"
              [tool_use_block "tooluse_1" "get_data";
               VDict [("toolUse", VDict [("toolUseId", VStr "tooluse_2");
                                         ("name", VStr "broken")])]])
           (assistant_message
              [tool_use_block "tooluse_1" "get_data";
               VDict [("toolUse", VDict [("toolUseId", VStr "tooluse_2");
                                         ("name", VStr "broken")])]])
           (VStr "tool_use") [tool_use_block "tooluse_1" "get_data"]
           (VDict [("toolUse", VDict [("toolUseId", VStr "tooluse_2");
                                      ("name", VStr "broken")])])
           [] (KeyError (AStr "input")) (sample_state tt)); try reflexivity.
  repeat constructor. eexists. split; [reflexivity|]. simpl.
  by exists (VStr "tooluse_1"), (AStr "get_data"), (VDict [("q", VStr "x")]).
Defined.

Lemma tool_use_without_blocks_witness :
  _handle_response (λ r, r) (endpoint_text "Done") 1
    (sample_response "tool_use" [text_block "Nothing to call"]) (sample_state tt) =
  invoke (λ r, r) (endpoint_text "Done") 0 (VList [])
    (set_messages [assistant_message [text_block "Nothing to call"]] (sample_state tt)).
Proof.
  apply (tool_use_without_blocks (λ r : string, r) (endpoint_text "Done") 0
           (sample_response "tool_use" [text_block "Nothing to call"])
           (assistant_message [text_block "Nothing to call"]) (VStr "tool_use")
           [text_block "Nothing to call"] (sample_state tt)); try reflexivity.
  repeat constructor. by eexists.
Defined.

Lemma invoke_model_call_fails_witness :
  ∃ st',
    invoke (λ r, r) (endpoint_throttling 5 (Return VNone)) 0 (VList [text_block "Hi"])
      (sample_state 0)
    = Some (st', Raise (ThrottlingException "Too many requests"))
    ∧ messages st' = [user_message (VList [text_block "Hi"])].
Proof.
  destruct (_get_converse_response (R:=string)
              (endpoint_throttling 5 (Return VNone))
              (set_trace (trace (sample_state 0) ++ [EvAsyncSleep (1 # 2)])
                 (set_messages
                    (messages (sample_state 0) ++ [user_message (VList [text_block "Hi"])])
                    (sample_state 0)))) as [st' [response|e]] eqn:Hcall.
  - vm_compute in Hcall. discriminate Hcall.
  - assert (e = ThrottlingException "Too many requests") as ->
        by (vm_compute in Hcall; by injection Hcall).
    exists st'.
    exact (invoke_model_call_fails (λ r : string, r) _ 0 _ _ _ _ Hcall).
Defined.

Lemma invoke_two_messages_per_call_witness :
  ∃ st' answer,
    invoke (λ r, r) endpoint_tool_then_text 1 (VList [text_block "Hi"]) (sample_state 0)
    = Some (st', Return answer)
    ∧ length (messages st') = 4
    ∧ invoke_calls (trace st') = 2.
Proof.
  destruct (invoke (λ r, r) endpoint_tool_then_text 1 (VList [text_block "Hi"])
              (sample_state 0)) as [[st' [answer|e]]|] eqn:Hrun.
  - exists st', answer. split; [reflexivity|].
    destruct (invoke_two_messages_per_call (λ r : string, r) _ _ _ _ _ _ Hrun)
      as [Hbalance _].
    assert (invoke_calls (trace st') = 2) as Hcalls
        by (vm_compute in Hrun; by injection Hrun as <- _).
    rewrite Hcalls in Hbalance. simpl in Hbalance. split; [lia|done].
  - vm_compute in Hrun. discriminate Hrun.
  - vm_compute in Hrun. discriminate Hrun.
Defined.

Lemma main_registration_lists_tools_witness :
  ∃ h1 reg h2 specs,
    register_discovered (W:=unit) client_online
      [{| mcp_name := "get-data"; mcp_description := "Reads data";
          mcp_inputSchema := Ref 3 |}]
      empty_registry sample_store = (h1, Return reg)
    ∧ get_tools reg h1 = (h2, Return specs)
    ∧ map spec_name specs = dict_keys (_tools reg)
    ∧ (∀ t, t ∈ [{| mcp_name := "get-data"; mcp_description := "Reads data";
                    mcp_inputSchema := Ref 3 |}] →
          replace_hyphens (mcp_name t) ∈ map spec_name specs)
    ∧ Forall (λ e, function e.2 = call_tool client_online) (_tools reg).
Proof.
  apply (main_registration_lists_tools (W:=unit) client_online
           [{| mcp_name := "get-data"; mcp_description := "Reads data";
               mcp_inputSchema := Ref 3 |}] sample_store).
  repeat constructor. by exists 3, [].
Defined.

Lemma execute_through_client_witness :
  execute_tool (W:=unit) (λ r, r)
    (register_tool empty_registry "get-data" (call_tool client_offline)
       "Reads data" (Ref 0))
    (sample_request "get_data") tt =
  (tt, Return (_error_response (VStr "tooluse_1") "Not connected to server")).
Proof.
  apply (execute_through_client (W:=unit) (λ r : string, r) client_offline
           (register_tool empty_registry "get-data" (call_tool client_offline)
              "Reads data" (Ref 0))
           (sample_request "get_data") (VStr "tooluse_1") (VDict [("q", VStr "x")])
           "get_data"
           {| function := call_tool client_offline; description := "Reads data";
              input_schema := Ref 0; original_name := "get-data" |} tt);
    reflexivity.
Defined.

(** ** Where the outcome of a model call comes from *)

Section Outcome.
Context {W R : Type}.
Context (converse : request → store → M W pyval).
Implicit Types (st : state W R) (payload : request).

Lemma converse_attempts_outcome payload n :
  ∀ i delay st st' r,
    i + S n = max_retries →
    converse_attempts converse (seq i (S n)) delay payload st = (st', r) →
    ∃ w, converse payload (heap st) w = (world st', r).
Proof.
  induction n as [|n IH]; intros i delay st st' r Hn; simpl;
    unfold try_except at 1, bind at 1, log at 1, modify at 1;
    unfold bind at 1, gets at 1; unfold with_world at 1; simpl;
    destruct (converse payload (heap st) (world st)) as [w out] eqn:Hcall;
    (assert (∀ x : result pyval,
               x = out →
               (set_world w (set_trace (trace st ++ [EvConverse payload]) st), x)
               = (st', r) →
               ∃ w0, converse payload (heap st) w0 = (world st', r)) as Hstop;
     [intros x -> [= <- <-]; by exists (world st)|]);
    (destruct out as [response|e]; [by apply Hstop|]);
    (destruct e; try (unfold raise; by apply Hstop)).
  - assert (i = 4) as -> by (unfold max_retries in Hn; lia).
    unfold raise. by apply Hstop.
  - assert ((i <? 4) = true) as ->.
    { apply Nat.ltb_lt. unfold max_retries in Hn. lia. }
    unfold bind at 1, log at 1, modify at 1. intros Hrest.
    apply IH in Hrest; [|lia]. exact Hrest.
Qed.

(** X17: the outcome of [_get_converse_response] is never made up: it
    is either the exception that [get_tools] raised, or what the endpoint
    answered to the last call, a response returned as it is or an
    exception raised as it is; in particular the end of the retry loop,
    where the function would return [None], is never reached. *)
Theorem get_converse_response_outcome st st' r :
  _get_converse_response converse st = (st', r) →
  (∃ h' e, get_tools (tools st) (heap st) = (h', Raise e) ∧ r = Raise e)
  ∨ (∃ h' specs w,
       get_tools (tools st) (heap st) = (h', Return specs)
       ∧ converse (payload_of st specs) h' w = (world st', r)).
Proof.
  unfold _get_converse_response.
  unfold bind at 1, gets at 1. unfold bind at 1, gets at 1.
  unfold bind at 1, gets at 1. unfold bind at 1, with_heap at 1.
  destruct (get_tools (tools st) (heap st)) as [h1 [specs|e]].
  - intros Hloop. right.
    apply (converse_attempts_outcome (payload_of st specs) 4 0 1%Z
             (set_heap h1 st) st' r eq_refl) in Hloop.
    destruct Hloop as [w Hw]. by exists h1, specs, w.
  - intros [= <- <-]. left. by exists h1, e.
Qed.
End Outcome.

Lemma get_converse_response_outcome_witness :
  (∃ h' e, get_tools (W:=nat) (R:=string) sample_registry sample_store = (h', Raise e)
           ∧ Return (sample_response "end_turn" [text_block "Hi"]) = Raise e)
  ∨ (∃ h' specs w,
       get_tools (W:=nat) (R:=string) sample_registry sample_store = (h', Return specs)
       ∧ endpoint_throttling 2 (Return (sample_response "end_turn" [text_block "Hi"]))
           (payload_of (sample_state 0) specs) h' w
         = (3, Return (sample_response "end_turn" [text_block "Hi"]))).
Proof.
  destruct (_get_converse_response (R:=string)
              (endpoint_throttling 2
                 (Return (sample_response "end_turn" [text_block "Hi"])))
              (sample_state 0)) as [st' r] eqn:Hrun.
  pose proof (get_converse_response_outcome _ _ _ _ Hrun) as Hout.
  assert (world st' = 3 ∧ r = Return (sample_response "end_turn" [text_block "Hi"]))
    as [Hw Hr] by (vm_compute in Hrun; by injection Hrun as <- <-).
  by rewrite Hw, Hr in Hout.
Defined.
